(** * bidslda: weighted document-term matrix and LDA wrapper

    A shallow embedding of [lda_scripts/bidslda.py] together with the
    properties of its locally written logic: the weighting function, the
    assembly of the document-term matrix, the accessors of the topic-model
    wrapper and the corpus loader.

    Conventions.
    - Python [int] is [Z]; Python [float] is idealised as an exact rational
      [Q] (only comparisons, one division and one truncation are ever
      applied to floats here).
    - Python [str] is [string]; a character is a code point below 256.
    - A raised exception is the [Raise] branch of [result].
    - Output written with [print] is the list of printed lines. *)

From Stdlib Require Import ZArith QArith Qround Qpower Lia String Ascii List DecimalString.
From stdpp Require Import base list strings sorting.

(** ** Python runtime model *)

Module Py.

(** The exceptions that the modelled code can raise. *)
Inductive exn : Type :=
| AssertionError (msg : string)
| ZeroDivisionError
| IndexError
| ValueError
| TypeError
| AttributeError.

Inductive result (A : Type) : Type :=
| Ok (a : A)
| Raise (e : exn).
Arguments Ok {A} a.
Arguments Raise {A} e.

#[global] Instance result_ret : MRet result := fun A a => Ok a.
#[global] Instance result_bind : MBind result :=
  fun A B f m => match m with Ok a => f a | Raise e => Raise e end.

(** Control flow inside one function body: a statement either falls
    through to the next one, returns from the function, or raises. *)
Inductive flow (R A : Type) : Type :=
| Next (a : A)
| Return (r : R)
| Throw (e : exn).
Arguments Next {R A} a.
Arguments Return {R A} r.
Arguments Throw {R A} e.

Definition flow_bind {R A B} (m : flow R A) (k : A -> flow R B) : flow R B :=
  match m with
  | Next a => k a
  | Return r => Return r
  | Throw e => Throw e
  end.

(** A body that falls off its end returns [None]; the bodies modelled here
    all end in a [return], so [default] is only a place holder. *)
Definition run_body {R} (default : R) (m : flow R unit) : result R :=
  match m with
  | Next _ => Ok default
  | Return r => Ok r
  | Throw e => Raise e
  end.

Definition py_assert {R} (cond : bool) (msg : string) : flow R unit :=
  if cond then Next tt else Throw (AssertionError msg).

(** Dynamically typed values, as far as the store can hand them out. *)
Inductive value : Type :=
| PyNone
| PyBool (b : bool)
| PyInt (z : Z)
| PyFloat (q : Q)
| PyStr (s : string)
| PyBytes (b : list ascii).

Inductive type_ : Type :=
| TNoneType | TBool | TInt | TFloat | TStr | TBytes.

#[global] Instance type_eq_dec : EqDecision type_.
Proof. solve_decision. Defined.

(** [type(v)] *)
Definition type_of (v : value) : type_ :=
  match v with
  | PyNone => TNoneType
  | PyBool _ => TBool
  | PyInt _ => TInt
  | PyFloat _ => TFloat
  | PyStr _ => TStr
  | PyBytes _ => TBytes
  end.

Definition type_name (t : type_) : string :=
  match t with
  | TNoneType => "NoneType"
  | TBool => "bool"
  | TInt => "int"
  | TFloat => "float"
  | TStr => "str"
  | TBytes => "bytes"
  end.

(** [str(t)] for a type object, as [format] inserts it. *)
Definition type_repr (t : type_) : string :=
  "<class '" +:+ type_name t +:+ "'>".

(** [str(n)] for a non-negative integer. *)
Definition str_of_nat (n : nat) : string :=
  NilEmpty.string_of_uint (Nat.to_uint n).

(** [sep.join(words)] *)
Fixpoint join (sep : string) (words : list string) : string :=
  match words with
  | [] => ""
  | [w] => w
  | w :: ws => w +:+ sep +:+ join sep ws
  end.

(** [c.isspace()] on code points below 256: tab, line feed, vertical tab,
    form feed, carriage return, the four separators 28..31, space, next
    line (133) and no-break space (160). *)
Definition isspace (c : ascii) : bool :=
  let n := nat_of_ascii c in
  ((9 <=? n) && (n <=? 13)) || ((28 <=? n) && (n <=? 32))
  || (n =? 133) || (n =? 160).

(** [s.split()] without arguments: the maximal runs of non-whitespace
    characters, in order.  [tok] is the run read so far. *)
Fixpoint split_go (isspace : ascii -> bool) (tok : string) (s : string)
  : list string :=
  match s with
  | EmptyString => if decide (tok = "") then [] else [tok]
  | String c s' =>
      if isspace c
      then (if decide (tok = "") then split_go isspace "" s'
            else tok :: split_go isspace "" s')
      else split_go isspace (tok +:+ String c "") s'
  end.

Definition split (s : string) : list string := split_go isspace "" s.

(** [a / b] on floats, with the exact quotient standing for the rounded
    one: rounding, and overflow to an infinity, are not represented. *)
Definition truediv (a b : Q) : result Q :=
  if Qeq_bool b 0 then Raise ZeroDivisionError else Ok (a / b)%Q.

(** [int(q)]: truncation towards zero.  (On an infinity or a NaN, which
    the rationals do not have, Python raises.) *)
Definition int (q : Q) : Z := Z.quot (Qnum q) (Zpos (Qden q)).

Definition is_digit (c : ascii) : bool :=
  let n := nat_of_ascii c in (48 <=? n) && (n <=? 57).

Definition digit_value (c : ascii) : Z := Z.of_nat (nat_of_ascii c - 48).

(** The digits of a decimal literal, with single underscores allowed
    between digits: the value read and the characters left over. *)
Fixpoint digits_go (acc : Z) (prev_digit : bool) (s : list ascii)
  : option (Z * list ascii) :=
  match s with
  | [] => if prev_digit then Some (acc, []) else None
  | c :: s' =>
      if is_digit c then digits_go (10 * acc + digit_value c)%Z true s'
      else if Ascii.eqb c "_" then
        if prev_digit then
          match s' with
          | c' :: _ => if is_digit c' then digits_go acc false s' else None
          | [] => None
          end
        else None
      else if prev_digit then Some (acc, c :: s') else None
  end.

Fixpoint skip (space : ascii -> bool) (s : list ascii) : list ascii :=
  match s with
  | c :: s' => if space c then skip space s' else s
  | [] => []
  end.

(** [int(text)] in base 10: whitespace, an optional sign, the digits,
    whitespace, and nothing else. *)
Definition parse_int (space : ascii -> bool) (s : list ascii) : result Z :=
  let s := skip space s in
  let '(negative, s) :=
    match s with
    | c :: s' =>
        if Ascii.eqb c "-" then (true, s')
        else if Ascii.eqb c "+" then (false, s')
        else (false, s)
    | [] => (false, s)
    end in
  match digits_go 0 false s with
  | Some (n, rest) =>
      if forallb space rest then Ok (if negative then - n else n)%Z
      else Raise ValueError
  | None => Raise ValueError
  end.

(** The whitespace that [int] skips in [bytes]: tab to carriage return, and
    space. *)
Definition isspace_ascii (c : ascii) : bool :=
  let n := nat_of_ascii c in ((9 <=? n) && (n <=? 13)) || (n =? 32).

(** The whitespace that [int] skips in a [str]: the ASCII whitespace above,
    and beyond ASCII the Unicode whitespace (next line and no-break space
    below 256).  The separators 28..31 are whitespace for [split] but not
    for [int]. *)
Definition isspace_int (c : ascii) : bool :=
  let n := nat_of_ascii c in isspace_ascii c || (n =? 133) || (n =? 160).

(** [int(v)] on a value.  (A limit on the number of digits of a literal, in
    recent interpreters, is not represented.) *)
Definition int_of_value (v : value) : result Z :=
  match v with
  | PyNone => Raise TypeError
  | PyBool b => Ok (if b then 1 else 0)%Z
  | PyInt z => Ok z
  | PyFloat q => Ok (int q)
  | PyStr s => parse_int isspace_int (list_ascii_of_string s)
  | PyBytes b => parse_int isspace_ascii b
  end.

(** [range(n)] runs its body [n] times, and not at all when [n <= 0]. *)
Definition range_len (n : Z) : nat := Z.to_nat n.

(** [l[:stop]] for a list of length [len]: a negative [stop] counts from
    the end, and both ends are clamped. *)
Definition slice_stop {A} (stop : Z) (l : list A) : list A :=
  let len := Z.of_nat (length l) in
  let stop' := if (stop <? 0)%Z then Z.max 0 (stop + len) else Z.min stop len in
  take (Z.to_nat stop') l.

End Py.
Import Py.

(** ** The weighting function *)

(** Maximum degree of separation of any website. *)
Definition MAX_DEGREE : Z := 10.

(** [apply_weighting(deg_sep, fn)]: [fn] is any Python callable on an
    integer; it may raise. *)
Definition apply_weighting (deg_sep : Z) (fn : Z -> result Q) : result Z :=
  a ← fn deg_sep;
  b ← fn MAX_DEGREE;
  q ← truediv a b;
  Ok (int q).

Module Models.

(** Modelled from the spec: [models.power_law], the default weighting
    function, is not among the sources.  The specification calls it an
    inverse power law, a monotonically decreasing function of the degree of
    separation: [x ** (-k)] for an exponent [k].  Python raises on
    [0 ** (-k)] when [k] is positive. *)
Definition inverse_power (k : nat) (x : Z) : Q :=
  inject_Z x ^ (- Z.of_nat k).

Definition power_law (k : nat) (x : Z) : result Q :=
  if decide (x = 0%Z /\ k <> 0%nat) then Raise ZeroDivisionError
  else Ok (inverse_power k x).

End Models.


(** ** Documents *)

Module Items.

(** Modelled from the spec: [items.DocumentItem] is not among the sources.
    A document is identified by a base identifier and holds an accumulated
    list of words and an integer degree of separation, whose minimum is 1.
    capped at a maximum of 10.  [add_words] accumulates a word list;
    [update_degree] tracks the maximum degree of separation reported so
    far, within that cap. *)
Record DocumentItem : Type := mkDocumentItem {
  base_url : string;
  document : list string;
  deg_sep : Z
}.

Definition new (url : string) : DocumentItem :=
  {| base_url := url; document := []; deg_sep := 1 |}.

Definition get_base_url (d : DocumentItem) : string := base_url d.
Definition get_document (d : DocumentItem) : list string := document d.
Definition get_deg_sep (d : DocumentItem) : Z := deg_sep d.

Definition add_words (words : list string) (d : DocumentItem) : DocumentItem :=
  {| base_url := base_url d;
     document := document d ++ words;
     deg_sep := deg_sep d |}.

Definition update_degree (deg : Z) (d : DocumentItem) : DocumentItem :=
  {| base_url := base_url d;
     document := document d;
     deg_sep := Z.min 10 (Z.max (deg_sep d) deg) |}.

End Items.
Import Items.

(** ** The term-document matrix builder of the [textmining] package *)

Module Textmining.

(** A Python [dict] from words to counts, in insertion order. *)
Abbreviation dict := (list (string * nat)).

(** [d.get(k, 0)] *)
Fixpoint get (d : dict) (k : string) : nat :=
  match d with
  | [] => 0
  | (k', n) :: d' => if decide (k' = k) then n else get d' k
  end.

(** [d[k] = d.get(k, 0) + 1] *)
Fixpoint incr (d : dict) (k : string) : dict :=
  match d with
  | [] => [(k, 1)]
  | (k', n) :: d' =>
      if decide (k' = k) then (k', S n) :: d' else (k', n) :: incr d' k
  end.

Definition keys (d : dict) : list string := d.*1.

Definition lower (c : ascii) : ascii :=
  let n := nat_of_ascii c in
  if (65 <=? n) && (n <=? 90) then ascii_of_nat (n + 32) else c.

Definition is_a_z (c : ascii) : bool :=
  let n := nat_of_ascii c in (97 <=? n) && (n <=? 122).

Fixpoint map_string (f : ascii -> ascii) (s : string) : string :=
  match s with
  | EmptyString => EmptyString
  | String c s' => String (f c) (map_string f s')
  end.

(** [simple_tokenize]: lower-case the document, blank out every character
    that is not a lower-case letter, and split at the blanks.  (Below 256
    only the letters A..Z are mapped into a..z by [lower()].) *)
Definition simple_tokenize (document : string) : list string :=
  let document := map_string lower document in
  let document := map_string (fun c => if is_a_z c then c else " "%char) document in
  Py.split document.

Record TermDocumentMatrix : Type := mkTermDocumentMatrix {
  tokenize : string -> list string;
  (** one dictionary of word counts per added document *)
  sparse : list dict;
  (** for each word, the number of added documents that contain it *)
  doc_count : dict
}.

Definition new : TermDocumentMatrix :=
  {| tokenize := simple_tokenize; sparse := []; doc_count := [] |}.

Definition add_doc (document : string) (self : TermDocumentMatrix)
  : TermDocumentMatrix :=
  let words := tokenize self document in
  let word_counts := foldl incr [] words in
  {| tokenize := tokenize self;
     sparse := sparse self ++ [word_counts];
     doc_count := foldl incr (doc_count self) (keys word_counts) |}.

(** [rows(cutoff)]: the header of the words met in at least [cutoff] added
    documents, followed by one row of counts per added document. *)
Definition rows (cutoff : nat) (self : TermDocumentMatrix)
  : list string * list (list nat) :=
  let words := keys (filter (fun wc => cutoff <= wc.2) (doc_count self)) in
  (words, map (fun row => map (get row) words) (sparse self)).

End Textmining.

(** ** Matrix assembly *)

(** A [for] loop whose body may raise. *)
Fixpoint for_each {S A} (body : S -> A -> result S) (l : list A) (s : S)
  : result S :=
  match l with
  | [] => Ok s
  | x :: l' => s' ← body s x; for_each body l' s'
  end.

Section Assembly.

(** [models.power_law], the default [fn] of [apply_weighting]. *)
Variable power_law : Z -> result Q.

(** The state of the loop of [createDocTermMat]: the builder and the
    titles. *)
Definition assembly : Type := Textmining.TermDocumentMatrix * list string.

Definition add_document (st : assembly) (document : DocumentItem)
  : result assembly :=
  let '(docTermMatrix, titles) := st in
  let titles := titles ++ [get_base_url document] in
  weight ← apply_weighting (get_deg_sep document) power_law;
  Ok (Nat.iter (range_len weight)
        (Textmining.add_doc (join " " (get_document document)))
        docTermMatrix,
      titles).

(** Returns the data matrix, the terms and the document titles. *)
Definition createDocTermMat (dataset : list DocumentItem)
  : result (list (list nat) * list string * list string) :=
  st ← for_each add_document dataset (Textmining.new, []);
  let '(docTermMatrix, titles) := st in
  let temp := Textmining.rows 1 docTermMatrix in
  let terms := temp.1 in
  let matrix := temp.2 in
  Ok (matrix, terms, titles).

End Assembly.

(** ** The topic-model wrapper *)

Module Numpy.

#[global] Instance Qle_dec (x y : Q) : Decision (x <= y)%Q :=
  match Qlt_le_dec y x with
  | left H => right (Qlt_not_le _ _ H)
  | right H => left H
  end.

(** The weight at an index of a distribution. *)
Definition weight_at (dist : list Q) (i : nat) : Q := nth i dist 0%Q.

Definition weight_le (dist : list Q) (i j : nat) : Prop :=
  (weight_at dist i <= weight_at dist j)%Q.

(** One step of a sort by insertion: [i] goes before the first index whose
    weight is not smaller. *)
Fixpoint insert_index (dist : list Q) (i : nat) (sorted : list nat)
  : list nat :=
  match sorted with
  | [] => [i]
  | j :: sorted' =>
      if decide (weight_le dist i j) then i :: j :: sorted'
      else j :: insert_index dist i sorted'
  end.

(** [np.argsort(dist)]: the indices of [dist], ordered by ascending
    weight.  Indices of equal weight stay in index order, as numpy leaves
    them on the short arrays that it sorts by insertion; on long arrays
    numpy's default sort fixes no order of ties. *)
Definition argsort (dist : list Q) : list nat :=
  foldr (insert_index dist) [] (seq 0 (length dist)).

(** [np.array(a)[idx]]: selection by an index array. *)
Fixpoint take_indices {A} (a : list A) (idx : list nat) : result (list A) :=
  match idx with
  | [] => Ok []
  | i :: idx' =>
      match a !! i with
      | None => Raise IndexError
      | Some x => xs ← take_indices a idx'; Ok (x :: xs)
      end
  end.

Fixpoint argmax_go (best_i : nat) (best : Q) (i : nat) (row : list Q) : nat :=
  match row with
  | [] => best_i
  | x :: row' =>
      if decide (x <= best)%Q then argmax_go best_i best (S i) row'
      else argmax_go i x (S i) row'
  end.

(** [row.argmax()]: the first index of a maximal entry. *)
Definition argmax (row : list Q) : result nat :=
  match row with
  | [] => Raise ValueError
  | x :: row' => Ok (argmax_go 0 x 1 row')
  end.

End Numpy.

(** What a generator has yielded, or a function has printed, and how it
    ended. *)
Definition trace (A : Type) : Type := list A * result unit.

Definition emit {A} (a : A) : trace A := ([a], Ok tt).

Definition trace_seq {A} (t1 t2 : trace A) : trace A :=
  match t1.2 with
  | Ok _ => (t1.1 ++ t2.1, t2.2)
  | Raise e => t1
  end.

Definition trace_lift {A B} (r : result A) (k : A -> trace B) : trace B :=
  match r with
  | Ok a => k a
  | Raise e => ([], Raise e)
  end.

Fixpoint for_trace {A B} (body : A -> trace B) (l : list A) : trace B :=
  match l with
  | [] => ([], Ok tt)
  | x :: l' => trace_seq (body x) (for_trace body l')
  end.

(** The state of an [LDAM] object after [fit]: the labels kept by the
    wrapper and the two distributions that the [lda] package attaches to
    its model. *)
Record LDAM : Type := mkLDAM {
  terms : list string;
  documents : list string;
  (** one row per topic, one column per term *)
  topic_word_ : list (list Q);
  (** one row per matrix row, one column per topic *)
  doc_topic_ : list (list Q)
}.

Section Fit.

Variable power_law : Z -> result Q.

(** [lda.LDA.fit] on a matrix, for the number of topics chosen at
    construction: a numerical routine outside this repository. *)
Variable lda_fit : list (list nat) -> list (list Q) * list (list Q).

Definition fit (dataset : list DocumentItem) : result LDAM :=
  r ← createDocTermMat power_law dataset;
  let '(dataMatrix, terms, documents) := r in
  let model := lda_fit dataMatrix in
  Ok {| terms := terms; documents := documents;
        topic_word_ := model.1; doc_topic_ := model.2 |}.

End Fit.

(** Something yielded by [topics]: the tuple of terms or a string. *)
Inductive item : Type :=
| Terms (ts : list string)
| Str (s : string).

Definition topic_line (self : LDAM) (n_words : Z) (i : nat) (top_dist : list Q)
  : trace item :=
  trace_lift (Numpy.take_indices (terms self) (Numpy.argsort top_dist))
    (fun sorted =>
       let topic_words := slice_stop (- (n_words + 1)) sorted in
       emit (Str ("Topic " +:+ str_of_nat i +:+ ": " +:+ join " " topic_words))).

(** Gives a generator of values to print. *)
Definition topics (self : LDAM) (n_words : Z) : trace item :=
  trace_seq (emit (Terms (terms self)))
    (for_trace (fun it => topic_line self n_words it.1 it.2)
       (imap pair (topic_word_ self))).

Definition doc_topic_line (self : LDAM) (i : nat) : trace string :=
  match doc_topic_ self !! i, documents self !! i with
  | Some row, Some title =>
      trace_lift (Numpy.argmax row)
        (fun k => emit (title +:+ " (top topic: " +:+ str_of_nat k +:+ ")"))
  | _, _ => ([], Raise IndexError)
  end.

Definition printDocTopic (self : LDAM) : trace string :=
  for_trace (doc_topic_line self) (seq 0 (length (documents self))).

(** ** The corpus loader *)

(** A record of the text collection. *)
Record text_record : Type := mkTextRecord {
  rec_base_url : string;
  (** whatever the store holds under [text] *)
  rec_text : value;
  (** whatever the store holds under [deg_sep] *)
  rec_deg_sep : value
}.

Module Mongo.

(** [collection.distinct("base_url")]: every value once, here in the order
    of first occurrence (the store itself fixes no order). *)
Definition distinct (collection : list text_record) : list string :=
  reverse (remove_dups (reverse (map rec_base_url collection))).

(** [collection.find({"base_url": base_url})] *)
Definition find (base_url : string) (collection : list text_record)
  : list text_record :=
  filter (fun data => rec_base_url data = base_url) collection.

End Mongo.

Section Loader.

(** [RegexpTokenizer(r'\w+').tokenize] and [stopwords.words('english')] of
    the [nltk] package. *)
Variable regexp_tokenize : string -> list string.
Variable english_stopwords : list string.

Definition filter_words_msg (document : value) : string :=
  "Current type: " +:+ type_repr (type_of document)
  +:+ ". Document needs to be a string or an unicode for stopwords to work".

Definition filter_words (document : value) : result (list string) :=
  run_body []
    (flow_bind
       (py_assert (bool_decide (type_of document ∈ [TStr]))
          (filter_words_msg document))
       (fun _ =>
          match document with
          | PyStr s =>
              flow_bind (Return (Py.split s)) (fun _ : unit =>
              (* Break the text up into tokens *)
              let word_list := regexp_tokenize s in
              (* Remove stopwords; a bound method [word.lower] is never a
                 member of a set of strings *)
              let stop_words := english_stopwords in
              let text := filter (fun word : string => True) word_list in
              Return text)
          | _ => Throw AttributeError
          end)).

Definition add_record (item : DocumentItem) (data : text_record)
  : result DocumentItem :=
  words ← filter_words (rec_text data);
  let item := add_words words item in
  deg ← int_of_value (rec_deg_sep data);
  Ok (update_degree deg item).

Definition load_document (collection : list text_record)
    (corpus : list DocumentItem) (base_url : string)
  : result (list DocumentItem) :=
  let item := Items.new base_url in
  item ← for_each add_record (Mongo.find base_url collection) item;
  Ok (corpus ++ [item]).

Definition get_corpus (collection : list text_record)
  : result (list DocumentItem) :=
  let uniq_base_urls := Mongo.distinct collection in
  for_each (load_document collection) uniq_base_urls [].

End Loader.

(** ** Vocabulary of the properties *)

(** The string that [createDocTermMat] inserts for a document. *)
Definition text_of (document : DocumentItem) : string :=
  join " " (get_document document).

(** The strings inserted for a dataset whose documents have the given
    weights, in the order of insertion. *)
Definition inserted (dataset : list DocumentItem) (weights : list Z)
  : list string :=
  concat (zip_with (fun d w => replicate (range_len w) (text_of d))
            dataset weights).

(** The weights of the documents of a dataset. *)
Definition weights_of (power_law : Z -> result Q)
    (dataset : list DocumentItem) (weights : list Z) : Prop :=
  Forall2 (fun d w => apply_weighting (get_deg_sep d) power_law = Ok w)
    dataset weights.

(** [add_doc] for each string in turn. *)
Definition add_docs (texts : list string) (m : Textmining.TermDocumentMatrix)
  : Textmining.TermDocumentMatrix :=
  foldl (fun m t => Textmining.add_doc t m) m texts.

(** The dictionary of word counts that [add_doc] computes for a string. *)
Definition word_counts (t : string) : Textmining.dict :=
  foldl Textmining.incr [] (Textmining.simple_tokenize t).

(** The matrix row that a document yields under a vocabulary. *)
Definition row_of (terms : list string) (document : DocumentItem) : list nat :=
  map (Textmining.get (word_counts (text_of document))) terms.

(** How often a term occurs in the corpus as a whole. *)
Definition corpus_count (term : string) (dataset : list DocumentItem) : nat :=
  sum_list
    (map (fun d => length (filter (fun w => w = term)
                             (Textmining.simple_tokenize (text_of d))))
       dataset).

(** The scenario of the specification: two documents, at degrees 1 and 10. *)
Definition doc_a : DocumentItem :=
  {| base_url := "a"; document := ["cat"; "dog"; "cat"]; deg_sep := 1 |}.
Definition doc_b : DocumentItem :=
  {| base_url := "b"; document := ["dog"; "bird"]; deg_sep := 10 |}.
Definition scenario : list DocumentItem := [doc_a; doc_b].

(** The words that a record contributes once its text has passed the type
    check. *)
Definition words_of (data : text_record) : list string :=
  match rec_text data with
  | PyStr s => Py.split s
  | _ => []
  end.

(** The degree of separation that a record reports, once [int] has
    converted it. *)
Definition degree_of (data : text_record) : Z :=
  match int_of_value (rec_deg_sep data) with
  | Ok z => z
  | Raise _ => 0
  end.

(** One record folded into a document. *)
Definition fold_record (item : DocumentItem) (data : text_record)
  : DocumentItem :=
  update_degree (degree_of data) (add_words (words_of data) item).

Definition is_str (v : value) : Prop := type_of v = TStr.

(** A record that the loader accepts: its text is a string and [int]
    converts its degree of separation. *)
Definition loadable (data : text_record) : Prop :=
  is_str (rec_text data) /\ exists z, int_of_value (rec_deg_sep data) = Ok z.


(** A stand-in for the fitting routine on the scenario, with two topics:
    one row of the document-topic distribution per matrix row, leaning to
    topic 0 where the first term occurs and to topic 1 elsewhere. *)
Definition scenario_fit (matrix : list (list nat))
  : list (list Q) * list (list Q) :=
  ([[1 # 2; 1 # 4; 1 # 4]; [1 # 4; 1 # 4; 1 # 2]],
   map (fun row => match row with
                   | S _ :: _ => [9 # 10; 1 # 10]
                   | _ => [1 # 10; 9 # 10]
                   end)
     matrix).

(** The characters of a string. *)
Fixpoint chars (s : string) : list ascii :=
  match s with
  | EmptyString => []
  | String c s' => c :: chars s'
  end.

(** The terms of a model in the order of ascending weight under a topic. *)
Definition sorted_terms (self : LDAM) (top_dist : list Q) : list string :=
  map (fun j => nth j (terms self) ""%string) (Numpy.argsort top_dist).

(** The sequence in the words of the specification: the vocabulary, then
    for each topic index a labelled string of the terms sorted by ascending
    weight, from which the [excluded] highest-weighted terms are left out.
    The specification of [topics(n)] takes [excluded] to be [n]. *)
Definition topics_excluding (excluded : nat) (self : LDAM) : trace item :=
  (Terms (terms self)
   :: imap (fun i top_dist =>
              let sorted := sorted_terms self top_dist in
              Str ("Topic " +:+ str_of_nat i +:+ ": "
                   +:+ join " " (take (length sorted - excluded) sorted)))
        (topic_word_ self),
   Ok tt).

(** [k] is the first index of a greatest entry of [row]. *)
Definition is_argmax (row : list Q) (k : nat) : Prop :=
  k < length row /\
  (forall j, j < length row ->
     (Numpy.weight_at row j <= Numpy.weight_at row k)%Q) /\
  (forall j, j < k -> (Numpy.weight_at row j < Numpy.weight_at row k)%Q).

(** The line printed for a title and its top topic. *)
Definition doc_topic_format (title : string) (k : nat) : string :=
  title +:+ " (top topic: " +:+ str_of_nat k +:+ ")".

(** A model of three terms and two topics. *)
Definition small_model : LDAM :=
  {| terms := ["a"; "b"; "c"]%string;
     documents := ["d1"; "d2"]%string;
     topic_word_ := [[1 # 10; 2 # 10; 7 # 10]; [5 # 10; 4 # 10; 1 # 10]];
     doc_topic_ := [[1 # 10; 9 # 10]; [1 # 2; 1 # 2]] |}.


(** How often a term occurs among the tokens of a document. *)
Definition occurrences (term : string) (document : DocumentItem) : nat :=
  length (filter (fun w => w = term)
            (Textmining.simple_tokenize (text_of document))).

(** The indices of the terms that [topics(n_words)] lists for a topic. *)
Definition listed (n_words : Z) (top_dist : list Q) : list nat :=
  slice_stop (- (n_words + 1)) (Numpy.argsort top_dist).
(** ** Checks on concrete inputs *)

Example apply_weighting_deg_1 :
  apply_weighting 1 (Models.power_law 1) = Ok 10%Z.
Proof. reflexivity. Qed.

Example apply_weighting_deg_3 :
  apply_weighting 3 (Models.power_law 1) = Ok 3%Z.
Proof. reflexivity. Qed.

Example apply_weighting_deg_11 :
  apply_weighting 11 (Models.power_law 2) = Ok 0%Z.
Proof. reflexivity. Qed.

Example apply_weighting_deg_0 :
  apply_weighting 0 (Models.power_law 2) = Raise ZeroDivisionError.
Proof. reflexivity. Qed.

Example split_blanks :
  Py.split "  cat dog   cat " = ["cat"; "dog"; "cat"]%string.
Proof. reflexivity. Qed.

Example simple_tokenize_mixed :
  Textmining.simple_tokenize "Cat1x dog" = ["cat"; "x"; "dog"]%string.
Proof. reflexivity. Qed.

Example slice_stop_negative : slice_stop (-2) [1; 2; 3; 4] = [1; 2].
Proof. reflexivity. Qed.

Example slice_stop_zero : slice_stop 0 [1; 2; 3; 4] = [].
Proof. reflexivity. Qed.

Example slice_stop_beyond : slice_stop (-7) [1; 2; 3; 4] = [].
Proof. reflexivity. Qed.

Example argsort_ascending :
  Numpy.argsort [3 # 1; 1 # 1; 2 # 1; 1 # 2] = [3; 1; 2; 0].
Proof. reflexivity. Qed.

(** * Properties *)

(** ** Truncation and division *)

Lemma int_nonneg (q : Q) : (0 <= q)%Q -> int q = Qfloor q.
Proof.
  destruct q as [n d]. unfold Qle, int. simpl. intros Hn.
  apply Z.quot_div_nonneg; lia.
Qed.

Lemma int_opp (q : Q) : int (- q) = (- int q)%Z.
Proof.
  destruct q as [n d]. unfold int. simpl. apply Z.quot_opp_l. lia.
Qed.

Lemma int_comp (q q' : Q) : q == q' -> int q = int q'.
Proof.
  intros Heq. destruct (Qlt_le_dec q 0) as [Hneg | Hpos].
  - assert (H1 : (0 <= - q)%Q).
    { apply (Qopp_le_compat q 0). by apply Qlt_le_weak. }
    assert (H2 : (0 <= - q')%Q) by (by rewrite <- Heq).
    apply Z.opp_inj. rewrite <- !int_opp, !int_nonneg by done.
    apply Qfloor_comp. by rewrite Heq.
  - assert (H2 : (0 <= q')%Q) by (by rewrite <- Heq).
    rewrite !int_nonneg by done. by apply Qfloor_comp.
Qed.

Lemma truediv_self (q : Q) :
  ~ q == 0 -> exists r, truediv q q = Ok r /\ r == 1.
Proof.
  intros Hq. unfold truediv.
  destruct (Qeq_bool q 0) eqn:E.
  - by apply Qeq_bool_eq in E.
  - eexists; split; [done|]. by apply Qmult_inv_r.
Qed.

Lemma truediv_ok (a b : Q) : (0 < b)%Q -> truediv a b = Ok (a / b)%Q.
Proof.
  intros Hb. unfold truediv. destruct (Qeq_bool b 0) eqn:E; [|done].
  apply Qeq_bool_eq in E. rewrite E in Hb. by apply Qlt_irrefl in Hb.
Qed.

(** ** The weighting function on a positive, decreasing weight *)

Section Weighting.

Variable fn : Z -> result Q.
Variable f : Z -> Q.
Hypothesis fn_value :
  forall d, (1 <= d <= MAX_DEGREE)%Z -> fn d = Ok (f d).
Hypothesis f_positive :
  forall d, (1 <= d <= MAX_DEGREE)%Z -> (0 < f d)%Q.
Hypothesis f_antitone :
  forall d1 d2, (1 <= d1)%Z -> (d1 <= d2)%Z -> (d2 <= MAX_DEGREE)%Z ->
    (f d2 <= f d1)%Q.

Lemma max_degree_in_range : (1 <= MAX_DEGREE <= MAX_DEGREE)%Z.
Proof. unfold MAX_DEGREE. lia. Qed.

Lemma apply_weighting_value (d : Z) :
  (1 <= d <= MAX_DEGREE)%Z ->
  apply_weighting d fn = Ok (Qfloor (f d / f MAX_DEGREE)).
Proof.
  intros Hd. unfold apply_weighting.
  rewrite (fn_value d Hd), (fn_value _ max_degree_in_range). simpl.
  rewrite truediv_ok by apply f_positive, max_degree_in_range. simpl.
  f_equal. apply int_nonneg. apply Qle_shift_div_l.
  - apply f_positive, max_degree_in_range.
  - rewrite Qmult_0_l. apply Qlt_le_weak. by apply f_positive.
Qed.

Lemma ratio_antitone (d1 d2 : Z) :
  (1 <= d1)%Z -> (d1 <= d2)%Z -> (d2 <= MAX_DEGREE)%Z ->
  (f d2 / f MAX_DEGREE <= f d1 / f MAX_DEGREE)%Q.
Proof.
  intros H1 H12 H2. unfold Qdiv. apply Qmult_le_compat_r.
  - by apply f_antitone.
  - apply Qinv_le_0_compat, Qlt_le_weak, f_positive, max_degree_in_range.
Qed.

Lemma ratio_at_least_one (d : Z) :
  (1 <= d <= MAX_DEGREE)%Z -> (1 <= f d / f MAX_DEGREE)%Q.
Proof.
  intros Hd. apply Qle_shift_div_l.
  - apply f_positive, max_degree_in_range.
  - rewrite Qmult_1_l. apply f_antitone; lia.
Qed.

Lemma apply_weighting_antitone (d1 d2 : Z) :
  (1 <= d1)%Z -> (d1 <= d2)%Z -> (d2 <= MAX_DEGREE)%Z ->
  exists w1 w2,
    apply_weighting d1 fn = Ok w1 /\ apply_weighting d2 fn = Ok w2 /\
    (1 <= w2)%Z /\ (w2 <= w1)%Z.
Proof.
  intros H1 H12 H2.
  exists (Qfloor (f d1 / f MAX_DEGREE)), (Qfloor (f d2 / f MAX_DEGREE)).
  split; [apply apply_weighting_value; lia|].
  split; [apply apply_weighting_value; lia|]. split.
  - change 1%Z with (Qfloor 1). apply Qfloor_resp_le, ratio_at_least_one. lia.
  - by apply Qfloor_resp_le, ratio_antitone.
Qed.

End Weighting.

(** ** The inverse power law *)

Lemma Qinv_le_contravar (a b : Q) : (0 < a)%Q -> (a <= b)%Q -> (/ b <= / a)%Q.
Proof.
  intros Ha Hab. apply Qle_shift_inv_r.
  - by apply Qlt_le_trans with a.
  - rewrite <- (Qmult_inv_r a) at 1.
    + rewrite (Qmult_comm a). apply Qmult_le_l; [by apply Qinv_lt_0_compat|done].
    + intros E. rewrite E in Ha. by apply Qlt_irrefl in Ha.
Qed.

Lemma power_law_value (k : nat) (x : Z) :
  (1 <= x)%Z -> Models.power_law k x = Ok (Models.inverse_power k x).
Proof.
  intros Hx. unfold Models.power_law.
  destruct (decide _) as [[? _]|_]; [lia|done].
Qed.

Lemma inverse_power_positive (k : nat) (x : Z) :
  (1 <= x)%Z -> (0 < Models.inverse_power k x)%Q.
Proof.
  intros Hx. apply Qpower_0_lt. change 0%Q with (inject_Z 0).
  rewrite <- Zlt_Qlt. lia.
Qed.

Lemma inverse_power_antitone (k : nat) (x y : Z) :
  (1 <= x)%Z -> (x <= y)%Z -> (Models.inverse_power k y <= Models.inverse_power k x)%Q.
Proof.
  intros Hx Hxy. unfold Models.inverse_power. rewrite !Qpower_opp.
  rewrite <- !Zpower_Qpower by lia. apply Qinv_le_contravar.
  - change 0%Q with (inject_Z 0). rewrite <- Zlt_Qlt.
    apply Z.pow_pos_nonneg; lia.
  - rewrite <- Zle_Qle. apply Z.pow_le_mono_l. lia.
Qed.

(** C5: at a degree of separation equal to [MAX_DEGREE] the weighting
    function returns exactly 1, for every [fn] whose value at [MAX_DEGREE]
    is not zero. *)
Theorem apply_weighting_max_degree (fn : Z -> result Q) (q : Q) :
  fn MAX_DEGREE = Ok q -> ~ q == 0 ->
  apply_weighting MAX_DEGREE fn = Ok 1%Z.
Proof.
  intros Hfn Hq. unfold apply_weighting. rewrite Hfn. simpl.
  destruct (truediv_self q Hq) as (r & -> & Hr). simpl.
  f_equal. by rewrite (int_comp r 1 Hr).
Qed.

Lemma apply_weighting_max_degree_witness :
  Models.power_law 2 MAX_DEGREE = Ok (1 # 100) /\ ~ (1 # 100) == 0 /\
  apply_weighting MAX_DEGREE (Models.power_law 2) = Ok 1%Z.
Proof.
  split; [reflexivity|]. split; [discriminate|].
  apply (apply_weighting_max_degree (Models.power_law 2) (1 # 100));
    [reflexivity|discriminate].
Defined.

(** C4: for degrees of separation between 1 and [MAX_DEGREE] the weighting
    under the inverse power law, whatever its exponent, is a positive
    integer that does not increase with the degree; so of two documents
    with the same word list the one of lower degree is replicated at least
    as often. *)
Theorem apply_weighting_power_law (k : nat) (d1 d2 : Z) :
  (1 <= d1)%Z -> (d1 <= d2)%Z -> (d2 <= MAX_DEGREE)%Z ->
  exists w1 w2,
    apply_weighting d1 (Models.power_law k) = Ok w1 /\
    apply_weighting d2 (Models.power_law k) = Ok w2 /\
    (1 <= w2)%Z /\ (w2 <= w1)%Z /\
    forall doc1 doc2,
      get_document doc1 = get_document doc2 ->
      get_deg_sep doc1 = d1 -> get_deg_sep doc2 = d2 ->
      apply_weighting (get_deg_sep doc1) (Models.power_law k) = Ok w1 /\
      apply_weighting (get_deg_sep doc2) (Models.power_law k) = Ok w2.
Proof.
  intros H1 H12 H2.
  destruct (apply_weighting_antitone (Models.power_law k)
              (Models.inverse_power k)) with (d1 := d1) (d2 := d2)
    as (w1 & w2 & E1 & E2 & Hpos & Hle); try done.
  - intros d Hd. apply power_law_value. lia.
  - intros d Hd. apply inverse_power_positive. lia.
  - intros x y Hx Hxy _. by apply inverse_power_antitone.
  - exists w1, w2. repeat split; try done; intros; by subst.
Qed.

Lemma apply_weighting_power_law_witness :
  exists w1 w2,
    apply_weighting 2 (Models.power_law 3) = Ok w1 /\
    apply_weighting 5 (Models.power_law 3) = Ok w2 /\
    (1 <= w2)%Z /\ (w2 <= w1)%Z /\
    forall doc1 doc2,
      get_document doc1 = get_document doc2 ->
      get_deg_sep doc1 = 2%Z -> get_deg_sep doc2 = 5%Z ->
      apply_weighting (get_deg_sep doc1) (Models.power_law 3) = Ok w1 /\
      apply_weighting (get_deg_sep doc2) (Models.power_law 3) = Ok w2.
Proof.
  apply (apply_weighting_power_law 3 2 5); unfold MAX_DEGREE; lia.
Defined.

(** ** Dictionaries of counts *)

Section Dict.
Import Textmining.

Lemma keys_incr (d : dict) (k : string) :
  keys (incr d k) = if decide (k ∈ keys d) then keys d else keys d ++ [k].
Proof.
  unfold keys. induction d as [|[k' n] d IH]; csimpl.
  - done.
  - destruct (decide (k' = k)) as [->|Hne]; csimpl.
    + destruct (decide (k ∈ k :: d.*1)) as [_|Hn]; [done|].
      destruct Hn. by left.
    + rewrite IH.
      destruct (decide (k ∈ d.*1)) as [Hin|Hin],
        (decide (k ∈ k' :: d.*1)) as [Hin'|Hin']; try done.
      * destruct Hin'. by right.
      * apply elem_of_cons in Hin' as [->|Hin']; done.
Qed.

Lemma elem_of_keys_incr (d : dict) (k k' : string) :
  k' ∈ keys (incr d k) <-> k' = k \/ k' ∈ keys d.
Proof.
  rewrite keys_incr. destruct (decide (k ∈ keys d)).
  - intuition (subst; auto).
  - rewrite elem_of_app, list_elem_of_singleton. tauto.
Qed.

Lemma NoDup_keys_incr (d : dict) (k : string) :
  NoDup (keys d) -> NoDup (keys (incr d k)).
Proof.
  intros Hd. rewrite keys_incr. destruct (decide (k ∈ keys d)); [done|].
  apply NoDup_app. split_and!; [done| |apply NoDup_singleton].
  intros x Hx. rewrite list_elem_of_singleton. by intros ->.
Qed.

Lemma counts_positive_incr (d : dict) (k : string) :
  Forall (fun kc => 1 <= kc.2) d -> Forall (fun kc => 1 <= kc.2) (incr d k).
Proof.
  induction 1 as [|[k' n] d Hn Hd IH]; simpl.
  - repeat constructor.
  - destruct (decide (k' = k)); constructor; simpl in *; try done. lia.
Qed.

Lemma elem_of_keys_foldl_incr (ks : list string) (d : dict) (k' : string) :
  k' ∈ keys (foldl incr d ks) <-> k' ∈ ks \/ k' ∈ keys d.
Proof.
  revert d. induction ks as [|k ks IH]; intros d; simpl.
  - rewrite elem_of_nil. tauto.
  - rewrite IH, elem_of_keys_incr, elem_of_cons. tauto.
Qed.

Lemma NoDup_keys_foldl_incr (ks : list string) (d : dict) :
  NoDup (keys d) -> NoDup (keys (foldl incr d ks)).
Proof.
  revert d. induction ks as [|k ks IH]; intros d Hd; simpl; [done|].
  by apply IH, NoDup_keys_incr.
Qed.

Lemma counts_positive_foldl_incr (ks : list string) (d : dict) :
  Forall (fun kc => 1 <= kc.2) d ->
  Forall (fun kc => 1 <= kc.2) (foldl incr d ks).
Proof.
  revert d. induction ks as [|k ks IH]; intros d Hd; simpl; [done|].
  by apply IH, counts_positive_incr.
Qed.

Lemma filter_counts_positive (d : dict) :
  Forall (fun kc => 1 <= kc.2) d -> filter (fun wc => 1 <= wc.2) d = d.
Proof.
  induction 1 as [|kc d Hn Hd IH]; [done|].
  rewrite filter_cons_True by done. by rewrite IH.
Qed.

(** ** The builder after a sequence of insertions *)

Lemma tokenize_add_docs (texts : list string) (m : TermDocumentMatrix) :
  tokenize (add_docs texts m) = tokenize m.
Proof.
  revert m. induction texts as [|t texts IH]; intros m; simpl; [done|].
  unfold add_docs in *. simpl. by rewrite IH.
Qed.

Lemma sparse_add_docs (texts : list string) (m : TermDocumentMatrix) :
  tokenize m = simple_tokenize ->
  sparse (add_docs texts m) = sparse m ++ map word_counts texts.
Proof.
  revert m. induction texts as [|t texts IH]; intros m Hm; simpl.
  - by rewrite app_nil_r.
  - unfold add_docs in *. simpl. rewrite IH by done. simpl.
    rewrite <- app_assoc. simpl. unfold word_counts. by rewrite Hm.
Qed.

Lemma elem_of_doc_count_add_docs (texts : list string) (m : TermDocumentMatrix)
    (w : string) :
  tokenize m = simple_tokenize ->
  w ∈ keys (doc_count (add_docs texts m)) <->
  (exists t, t ∈ texts /\ w ∈ simple_tokenize t) \/ w ∈ keys (doc_count m).
Proof.
  revert m. induction texts as [|t texts IH]; intros m Hm; simpl.
  - split; [by right|]. intros [(t & Ht & _)|H]; [|done].
    by apply elem_of_nil in Ht.
  - unfold add_docs in *. simpl. rewrite IH by done. simpl.
    rewrite elem_of_keys_foldl_incr, Hm.
    rewrite (elem_of_keys_foldl_incr _ [] w).
    unfold keys at 3. simpl. rewrite elem_of_nil. split.
    + intros [(t' & Ht' & Hw)|[[Hw|[]]|Hw]].
      * left. exists t'. split; [by right|done].
      * left. exists t. split; [by left|done].
      * by right.
    + intros [(t' & Ht' & Hw)|Hw]; [|by right; right].
      apply elem_of_cons in Ht' as [->|Ht']; [right; left; by left|].
      left. by exists t'.
Qed.

Lemma NoDup_doc_count_add_docs (texts : list string) (m : TermDocumentMatrix) :
  NoDup (keys (doc_count m)) -> NoDup (keys (doc_count (add_docs texts m))).
Proof.
  revert m. induction texts as [|t texts IH]; intros m Hm; simpl; [done|].
  unfold add_docs in *. simpl. apply IH. simpl.
  by apply NoDup_keys_foldl_incr.
Qed.

Lemma counts_positive_add_docs (texts : list string) (m : TermDocumentMatrix) :
  Forall (fun kc => 1 <= kc.2) (doc_count m) ->
  Forall (fun kc => 1 <= kc.2) (doc_count (add_docs texts m)).
Proof.
  revert m. induction texts as [|t texts IH]; intros m Hm; simpl; [done|].
  unfold add_docs in *. simpl. apply IH. simpl.
  by apply counts_positive_foldl_incr.
Qed.

Lemma add_docs_app (l1 l2 : list string) (m : TermDocumentMatrix) :
  add_docs (l1 ++ l2) m = add_docs l2 (add_docs l1 m).
Proof. unfold add_docs. apply foldl_app. Qed.

Lemma iter_add_doc (n : nat) (t : string) (m : TermDocumentMatrix) :
  Nat.iter n (add_doc t) m = add_docs (replicate n t) m.
Proof.
  revert m. induction n as [|n IH]; intros m; [done|].
  rewrite Nat.iter_succ, <- Nat.iter_swap. by rewrite IH.
Qed.

End Dict.

(** ** The loop of [createDocTermMat] *)

Lemma length_inserted (dataset : list DocumentItem) (weights : list Z) :
  length dataset = length weights ->
  length (inserted dataset weights) = sum_list (map range_len weights).
Proof.
  revert weights. induction dataset as [|d ds IH]; intros [|w ws] Hlen;
    simpl in *; try done.
  unfold inserted in *. simpl. rewrite length_app, length_replicate.
  rewrite IH by lia. done.
Qed.

Lemma elem_of_inserted (dataset : list DocumentItem) (weights : list Z)
    (t : string) :
  length dataset = length weights ->
  t ∈ inserted dataset weights <->
  exists i d w, dataset !! i = Some d /\ weights !! i = Some w /\
                (1 <= w)%Z /\ t = text_of d.
Proof.
  revert weights. induction dataset as [|d ds IH]; intros [|w ws] Hlen;
    simpl in *; try done.
  - unfold inserted. simpl. rewrite elem_of_nil. split; [done|].
    by intros (i & d & w & Hd & _).
  - unfold inserted in *. simpl. rewrite elem_of_app, IH by lia.
    rewrite elem_of_replicate. unfold range_len. split.
    + intros [[-> Hn]|(i & d' & w' & ? & ? & ? & ?)].
      * exists 0, d, w. split_and!; try done. lia.
      * exists (S i), d', w'. by split_and!.
    + intros ([|i] & d' & w' & Hd & Hw & Hpos & ->); simpl in *.
      * injection Hd as ->. injection Hw as ->. left. split; [done|]. lia.
      * right. exists i, d', w'. by split_and!.
Qed.

Section AssemblyFacts.

Variable power_law : Z -> result Q.

Lemma for_each_add_document (dataset : list DocumentItem)
    (m : Textmining.TermDocumentMatrix) (titles : list string)
    (st : assembly) :
  for_each (add_document power_law) dataset (m, titles) = Ok st <->
  exists weights,
    weights_of power_law dataset weights /\
    st = (add_docs (inserted dataset weights) m,
          titles ++ map get_base_url dataset).
Proof.
  revert m titles. induction dataset as [|d dataset IH]; intros m titles; simpl.
  - split.
    + intros [= <-]. exists []. split; [constructor|].
      by rewrite app_nil_r.
    + intros (weights & Hw & ->). inversion Hw; subst.
      by rewrite app_nil_r.
  - destruct (apply_weighting (get_deg_sep d) power_law) as [w|e] eqn:Ew; simpl.
    + rewrite IH. split.
      * intros (weights & Hw & ->). exists (w :: weights).
        split; [by constructor|].
        unfold inserted. simpl. rewrite add_docs_app, iter_add_doc.
        by rewrite <- app_assoc.
      * intros (weights & Hw & ->). inversion Hw as [|? w' ? weights' Hw' Hws];
          subst. rewrite Ew in Hw'. injection Hw' as <-.
        exists weights'. split; [done|].
        unfold inserted. simpl. rewrite add_docs_app, iter_add_doc.
        by rewrite <- app_assoc.
    + split; [done|]. intros (weights & Hw & _).
      inversion Hw as [|? w' ? weights' Hw' Hws]; subst. congruence.
Qed.

Lemma createDocTermMat_inserted (dataset : list DocumentItem)
    (matrix : list (list nat)) (terms titles : list string) :
  createDocTermMat power_law dataset = Ok (matrix, terms, titles) <->
  exists weights,
    weights_of power_law dataset weights /\
    titles = map get_base_url dataset /\
    terms =
      Textmining.keys
        (Textmining.doc_count
           (add_docs (inserted dataset weights) Textmining.new)) /\
    matrix =
      map (fun t => map (Textmining.get (word_counts t)) terms)
        (inserted dataset weights).
Proof.
  unfold createDocTermMat.
  destruct (for_each _ _ _) as [[m ti]|e] eqn:E; simpl.
  - apply for_each_add_document in E as (weights & Hw & [= -> ->]).
    unfold Textmining.rows. simpl.
    rewrite filter_counts_positive
      by (apply counts_positive_add_docs; constructor).
    rewrite sparse_add_docs by done. simpl. rewrite List.map_map. split.
    + intros [= <- <- <-]. by exists weights.
    + intros (weights' & Hw' & -> & -> & ->).
      assert (weights' = weights) as ->; [|done].
      clear -Hw Hw'. revert weights' Hw'.
      induction Hw as [|d w ds ws H _ IH]; intros ws' Hw';
        inversion Hw'; subst; [done|].
      f_equal; [congruence|by apply IH].
  - split; [done|]. intros (weights & Hw & _).
    assert (for_each (add_document power_law) dataset (Textmining.new, [])
            = Ok (add_docs (inserted dataset weights) Textmining.new,
                  [] ++ map get_base_url dataset)) as E'.
    { apply for_each_add_document. by exists weights. }
    congruence.
Qed.

End AssemblyFacts.

Lemma inserted_app (b a : list DocumentItem) (w1 w2 : list Z) :
  length b = length w1 ->
  inserted (b ++ a) (w1 ++ w2) = inserted b w1 ++ inserted a w2.
Proof.
  intros Hlen. unfold inserted. rewrite zip_with_app by done.
  apply concat_app.
Qed.

Lemma sum_range_len (weights : list Z) :
  Forall (fun w => 0 <= w)%Z weights ->
  Z.of_nat (sum_list (map range_len weights)) = foldr Z.add 0%Z weights.
Proof.
  induction 1 as [|w ws Hw _ IH]; [done|].
  simpl. rewrite Nat2Z.inj_add, IH. unfold range_len. lia.
Qed.

(** C1, at the scenario of the specification under the inverse power law of
    exponent 1: two titles label eleven rows, and the row at index 1, whose
    title is "b", is the row of document "a". *)
Theorem createDocTermMat_titles_not_aligned :
  exists matrix terms titles,
    createDocTermMat (Models.power_law 1) scenario = Ok (matrix, terms, titles) /\
    length titles = 2 /\ length matrix = 11 /\
    titles !! 1 = Some "b" /\
    matrix !! 1 = Some (row_of terms doc_a) /\
    matrix !! 1 <> Some (row_of terms doc_b).
Proof.
  eexists _, _, _. split; [vm_compute; reflexivity|].
  repeat split. discriminate.
Qed.

Lemma createDocTermMat_rows (power_law : Z -> result Q)
    (dataset : list DocumentItem) (weights : list Z) :
  weights_of power_law dataset weights ->
  exists matrix terms titles,
    createDocTermMat power_law dataset = Ok (matrix, terms, titles) /\
    titles = map get_base_url dataset /\
    length matrix = sum_list (map range_len weights).
Proof.
  intros Hw. eexists _, _, _. split.
  - apply createDocTermMat_inserted. exists weights. by split_and!.
  - split; [done|].
    rewrite length_map. apply length_inserted. by eapply Forall2_length.
Qed.

Lemma apply_weighting_positive (fn : Z -> result Q) (d : Z) (a b : Q) :
  fn d = Ok a -> fn MAX_DEGREE = Ok b -> (0 < a)%Q -> (0 < b)%Q ->
  exists w, apply_weighting d fn = Ok w /\ (0 <= w)%Z.
Proof.
  intros Ha Hb Hapos Hbpos. unfold apply_weighting. rewrite Ha, Hb. simpl.
  rewrite truediv_ok by done. simpl. eexists. split; [done|].
  assert (0 <= a / b)%Q as Hq.
  { apply Qle_shift_div_l; [done|]. rewrite Qmult_0_l. by apply Qlt_le_weak. }
  rewrite int_nonneg by done. change 0%Z with (Qfloor 0).
  by apply Qfloor_resp_le.
Qed.

(** C2: under a weighting function that is positive on degrees of
    separation from 1 on, a collection of N documents of such degrees
    yields N titles and as many matrix rows as the sum of the weights of
    its documents. *)
Theorem createDocTermMat_shape (power_law : Z -> result Q)
    (dataset : list DocumentItem) :
  (forall d, (1 <= d)%Z -> exists q, power_law d = Ok q /\ (0 < q)%Q) ->
  Forall (fun doc => (1 <= get_deg_sep doc)%Z) dataset ->
  exists weights matrix terms titles,
    weights_of power_law dataset weights /\
    createDocTermMat power_law dataset = Ok (matrix, terms, titles) /\
    length titles = length dataset /\
    Z.of_nat (length matrix) = foldr Z.add 0%Z weights.
Proof.
  intros Hfn Hdeg.
  assert (exists weights, weights_of power_law dataset weights /\
                          Forall (fun w => 0 <= w)%Z weights)
    as (weights & Hw & Hpos).
  { induction Hdeg as [|doc docs Hdoc _ (ws & Hws & Hpos)].
    - exists []. split; constructor.
    - destruct (Hfn _ Hdoc) as (a & Ha & Hapos).
      destruct (Hfn MAX_DEGREE) as (b & Hb & Hbpos); [unfold MAX_DEGREE; lia|].
      destruct (apply_weighting_positive power_law _ a b Ha Hb Hapos Hbpos)
        as (w & Hw & Hwpos).
      exists (w :: ws). split; by constructor. }
  destruct (createDocTermMat_rows power_law dataset weights Hw)
    as (matrix & terms & titles & H & -> & Hlen).
  exists weights, matrix, terms, (map get_base_url dataset).
  split_and!; try done.
  - by rewrite length_map.
  - rewrite Hlen. by apply sum_range_len.
Qed.

Lemma createDocTermMat_shape_witness :
  exists weights matrix terms titles,
    weights_of (Models.power_law 1) scenario weights /\
    createDocTermMat (Models.power_law 1) scenario = Ok (matrix, terms, titles) /\
    length titles = length scenario /\
    Z.of_nat (length matrix) = foldr Z.add 0%Z weights.
Proof.
  apply (createDocTermMat_shape (Models.power_law 1) scenario).
  - intros d Hd. exists (Models.inverse_power 1 d).
    split; [by apply power_law_value|by apply inverse_power_positive].
  - repeat constructor; unfold get_deg_sep; simpl; lia.
Defined.

Example createDocTermMat_scenario_rows :
  exists matrix terms titles,
    createDocTermMat (Models.power_law 1) scenario = Ok (matrix, terms, titles) /\
    titles = ["a"; "b"]%string /\ length matrix = 10 + 1.
Proof. eexists _, _, _. by vm_compute. Qed.

(** C3, as the code has it: the vocabulary lists, without repetition,
    exactly the terms of the documents that are inserted at least once; a
    term that occurs only once in the corpus is among them. *)
Theorem createDocTermMat_vocabulary (power_law : Z -> result Q)
    (dataset : list DocumentItem) (matrix : list (list nat))
    (terms titles : list string) :
  createDocTermMat power_law dataset = Ok (matrix, terms, titles) ->
  NoDup terms /\
  forall term,
    term ∈ terms <->
    exists document weight,
      document ∈ dataset /\
      apply_weighting (get_deg_sep document) power_law = Ok weight /\
      (1 <= weight)%Z /\
      term ∈ Textmining.simple_tokenize (text_of document).
Proof.
  intros H. apply createDocTermMat_inserted in H
    as (weights & Hw & -> & -> & ->).
  split; [apply NoDup_doc_count_add_docs; constructor|].
  intros term. rewrite elem_of_doc_count_add_docs by done.
  pose proof (Forall2_length _ _ _ Hw) as Hlen.
  split.
  - intros [(t & Ht & Hterm)|Hin]; [|by apply elem_of_nil in Hin].
    apply (elem_of_inserted dataset weights t Hlen) in Ht
      as (i & d & w & Hd & Hwi & Hpos & ->).
    exists d, w. split_and!; try done.
    + by eapply list_elem_of_lookup_2.
    + by apply (Forall2_lookup_lr _ _ _ _ _ _ Hw Hd Hwi).
  - intros (d & w & Hd & Hwd & Hpos & Hterm). left.
    exists (text_of d). split; [|done].
    apply (elem_of_inserted dataset weights _ Hlen).
    apply list_elem_of_lookup_1 in Hd as (i & Hd).
    destruct (Forall2_lookup_l _ _ _ _ _ Hw Hd) as (w' & Hw' & Hwd').
    assert (w' = w) as -> by congruence.
    by exists i, d, w.
Qed.

Lemma createDocTermMat_vocabulary_witness :
  NoDup ["dog"; "bird"]%string /\
  forall term,
    term ∈ ["dog"; "bird"]%string <->
    exists document weight,
      document ∈ [doc_b] /\
      apply_weighting (get_deg_sep document) (Models.power_law 1) = Ok weight /\
      (1 <= weight)%Z /\
      term ∈ Textmining.simple_tokenize (text_of document).
Proof.
  apply (createDocTermMat_vocabulary (Models.power_law 1) [doc_b] [[1; 1]]
           ["dog"; "bird"]%string ["b"]%string).
  reflexivity.
Defined.

(** C3 as stated fails: "bird" occurs exactly once in the corpus of the
    scenario and is in the vocabulary. *)
Lemma createDocTermMat_keeps_single_occurrence :
  corpus_count "bird" scenario = 1 /\
  exists matrix terms titles,
    createDocTermMat (Models.power_law 1) scenario = Ok (matrix, terms, titles) /\
    "bird"%string ∈ terms.
Proof.
  split; [reflexivity|].
  eexists _, _, _. split; [vm_compute; reflexivity|].
  do 2 right. left.
Qed.

(** C10: a document whose weight is zero or negative has its base
    identifier appended to the titles, while the matrix and the vocabulary
    are those of the collection without it. *)
Theorem createDocTermMat_unweighted_document (power_law : Z -> result Q)
    (before after : list DocumentItem) (document : DocumentItem) (weight : Z)
    (matrix : list (list nat)) (terms titles : list string) :
  apply_weighting (get_deg_sep document) power_law = Ok weight ->
  (weight <= 0)%Z ->
  createDocTermMat power_law (before ++ after) = Ok (matrix, terms, titles) ->
  createDocTermMat power_law (before ++ document :: after) =
    Ok (matrix, terms, map get_base_url (before ++ document :: after)).
Proof.
  intros Hweight Hle H. apply createDocTermMat_inserted in H
    as (weights & Hw & -> & -> & ->).
  apply Forall2_app_inv_l in Hw as (w1 & w2 & H1 & H2 & ->).
  pose proof (Forall2_length _ _ _ H1) as Hlen.
  assert (inserted (before ++ document :: after) (w1 ++ weight :: w2)
          = inserted (before ++ after) (w1 ++ w2)) as Hins.
  { rewrite !inserted_app by done. f_equal.
    unfold inserted at 1. simpl. unfold range_len.
    by replace (Z.to_nat weight) with 0 by lia. }
  apply createDocTermMat_inserted. exists (w1 ++ weight :: w2).
  split_and!; try done.
  - apply Forall2_app; [done|]. by constructor.
  - by rewrite Hins.
  - by rewrite Hins.
Qed.

Lemma createDocTermMat_unweighted_document_witness :
  createDocTermMat (Models.power_law 1)
    ([doc_a] ++ {| base_url := "far"; document := ["fish"]; deg_sep := 11 |}
       :: [doc_b]) =
  Ok (replicate 10 [2; 1; 0] ++ [[0; 1; 1]], ["cat"; "dog"; "bird"]%string,
      ["a"; "far"; "b"]%string).
Proof.
  apply (createDocTermMat_unweighted_document (Models.power_law 1)
           [doc_a] [doc_b]
           {| base_url := "far"; document := ["fish"]; deg_sep := 11 |} 0
           (replicate 10 [2; 1; 0] ++ [[0; 1; 1]]) ["cat"; "dog"; "bird"]%string
           ["a"; "b"]%string);
    [reflexivity|lia|reflexivity].
Defined.

(** ** Splitting at whitespace *)

Lemma chars_app (s t : string) : chars (s +:+ t) = chars s ++ chars t.
Proof. induction s as [|c s IH]; simpl; [done|]. by rewrite IH. Qed.

Lemma split_go_tokens (tok s : string) :
  Forall (fun c => isspace c = false) (chars tok) ->
  Forall (fun t => t <> ""%string /\ Forall (fun c => isspace c = false) (chars t))
    (split_go isspace tok s).
Proof.
  revert tok. induction s as [|c s IH]; intros tok Htok; simpl.
  - destruct (decide (tok = "")); repeat constructor; done.
  - destruct (isspace c) eqn:Ec.
    + destruct (decide (tok = "")).
      * apply IH. constructor.
      * constructor; [done|]. apply IH. constructor.
    + apply IH. rewrite chars_app. apply Forall_app. split; [done|].
      by repeat constructor.
Qed.

Lemma split_tokens (s : string) :
  Forall (fun t => t <> ""%string /\ Forall (fun c => isspace c = false) (chars t))
    (Py.split s).
Proof. apply split_go_tokens. constructor. Qed.

(** ** The corpus loader *)

Section LoaderFacts.

Variable regexp_tokenize : string -> list string.
Variable english_stopwords : list string.

Local Abbreviation filter_words := (filter_words regexp_tokenize english_stopwords).
Local Abbreviation add_record := (add_record regexp_tokenize english_stopwords).
Local Abbreviation get_corpus := (get_corpus regexp_tokenize english_stopwords).

Lemma filter_words_str (s : string) : filter_words (PyStr s) = Ok (Py.split s).
Proof. reflexivity. Qed.

Lemma filter_words_not_str (document : value) :
  ~ is_str document ->
  filter_words document = Raise (AssertionError (filter_words_msg document)).
Proof. unfold is_str. by destruct document. Qed.

(** C8: [filter_words] raises the assertion error that names the type of
    its input exactly when the input is not a string; on a string it
    returns the split at whitespace, whatever the tokenizer and the
    stopword list of the unreachable statements are. *)
Theorem filter_words_spec (document : value) :
  (forall s, document = PyStr s ->
     filter_words document = Ok (Py.split s) /\
     Forall (fun t => t <> ""%string /\
                      Forall (fun c => isspace c = false) (chars t))
       (Py.split s)) /\
  (~ is_str document ->
     filter_words document =
       Raise (AssertionError
                ("Current type: <class '" +:+ type_name (type_of document)
                 +:+ "'>. Document needs to be a string or an unicode for stopwords to work"))) /\
  ((exists msg, filter_words document = Raise (AssertionError msg)) <->
   ~ is_str document).
Proof.
  split_and!.
  - intros s ->. split; [reflexivity|apply split_tokens].
  - intros H. rewrite filter_words_not_str by done.
    unfold filter_words_msg, type_repr. do 2 f_equal.
    by destruct document.
  - split.
    + intros [msg Hmsg] Hstr. unfold is_str in Hstr.
      destruct document; try done.
    + intros H. eexists. by apply filter_words_not_str.
Qed.

Lemma add_record_loadable (item : DocumentItem) (data : text_record) :
  loadable data -> add_record item data = Ok (fold_record item data).
Proof.
  intros [Hstr (z & Hz)].
  unfold add_record, fold_record, words_of, degree_of, is_str in *.
  destruct (rec_text data); try done. simpl. by rewrite Hz.
Qed.

Lemma for_each_add_record (records : list text_record) (item : DocumentItem) :
  Forall loadable records ->
  for_each add_record records item = Ok (foldl fold_record item records).
Proof.
  intros H. revert item. induction H as [|data records Hd _ IH]; intros item.
  - done.
  - cbn [for_each]. rewrite add_record_loadable by done. simpl. apply IH.
Qed.

Lemma base_url_foldl (records : list text_record) (item : DocumentItem) :
  get_base_url (foldl fold_record item records) = get_base_url item.
Proof.
  revert item. induction records as [|data records IH]; intros item; [done|].
  simpl. by rewrite IH.
Qed.

Lemma document_foldl (records : list text_record) (item : DocumentItem) :
  get_document (foldl fold_record item records) =
  get_document item ++ concat (map words_of records).
Proof.
  revert item. induction records as [|data records IH]; intros item; simpl.
  - by rewrite app_nil_r.
  - rewrite IH. simpl. unfold get_document. simpl. by rewrite <- app_assoc.
Qed.

(** The degree of a document stays at 1 or above. *)
Lemma deg_sep_foldl_ge (records : list text_record) (item : DocumentItem) :
  (1 <= get_deg_sep item)%Z ->
  (1 <= get_deg_sep (foldl fold_record item records))%Z.
Proof.
  revert item. induction records as [|data records IH]; intros item Hitem;
    simpl; [done|].
  apply IH. unfold get_deg_sep, fold_record, update_degree, add_words in *.
  cbn [deg_sep]. lia.
Qed.

(** Within the cap, the degree of a document is the running maximum. *)
Lemma deg_sep_foldl_max (records : list text_record) (item : DocumentItem) :
  (get_deg_sep item <= 10)%Z ->
  Forall (fun data => (degree_of data <= 10)%Z) records ->
  get_deg_sep (foldl fold_record item records) =
  foldl Z.max (get_deg_sep item) (map degree_of records).
Proof.
  intros Hitem H. revert item Hitem.
  induction H as [|data records Hd _ IH]; intros item Hitem; simpl; [done|].
  rewrite IH.
  - unfold get_deg_sep, fold_record, update_degree, add_words in *. cbn [deg_sep].
    f_equal. lia.
  - unfold get_deg_sep, fold_record, update_degree, add_words in *. cbn [deg_sep]. lia.
Qed.

Lemma foldl_max_ge (zs : list Z) (z0 : Z) :
  (z0 <= foldl Z.max z0 zs)%Z /\
  Forall (fun z => (z <= foldl Z.max z0 zs)%Z) zs.
Proof.
  revert z0. induction zs as [|z zs IH]; intros z0; simpl.
  - split; [lia|constructor].
  - destruct (IH (Z.max z0 z)) as [H1 H2]. split; [lia|].
    constructor; [lia|done].
Qed.

Lemma foldl_max_attained (zs : list Z) (z0 : Z) :
  foldl Z.max z0 zs = z0 \/ foldl Z.max z0 zs ∈ zs.
Proof.
  revert z0. induction zs as [|z zs IH]; intros z0; simpl; [by left|].
  destruct (IH (Z.max z0 z)) as [H|H].
  - rewrite H. destruct (Z.max_spec z0 z) as [[_ ->]|[_ ->]].
    + right. by left.
    + by left.
  - right. by right.
Qed.

(** The document that the loader builds for a base identifier. *)
Lemma load_document_loadable (collection : list text_record)
    (corpus : list DocumentItem) (url : string) :
  Forall loadable collection ->
  load_document regexp_tokenize english_stopwords collection corpus url =
  Ok (corpus ++ [foldl fold_record (Items.new url) (Mongo.find url collection)]).
Proof.
  intros Hstr. unfold load_document. rewrite for_each_add_record; [done|].
  apply Forall_forall. intros data Hin.
  apply list_elem_of_filter in Hin as [_ Hin].
  by apply (proj1 (Forall_forall _ _) Hstr).
Qed.

Lemma for_each_load_document (collection : list text_record)
    (urls : list string) (corpus : list DocumentItem) :
  Forall loadable collection ->
  for_each (load_document regexp_tokenize english_stopwords collection)
    urls corpus =
  Ok (corpus ++
      map (fun url => foldl fold_record (Items.new url) (Mongo.find url collection))
        urls).
Proof.
  intros Hstr. revert corpus.
  induction urls as [|url urls IH]; intros corpus; cbn [for_each].
  - by rewrite app_nil_r.
  - rewrite load_document_loadable by done. simpl. rewrite IH.
    by rewrite <- app_assoc.
Qed.

Lemma elem_of_distinct (collection : list text_record) (url : string) :
  url ∈ Mongo.distinct collection <-> url ∈ map rec_base_url collection.
Proof.
  unfold Mongo.distinct.
  by rewrite elem_of_reverse, elem_of_remove_dups, elem_of_reverse.
Qed.

Lemma NoDup_distinct (collection : list text_record) :
  NoDup (Mongo.distinct collection).
Proof.
  unfold Mongo.distinct. rewrite reverse_Permutation.
  apply NoDup_remove_dups.
Qed.

Lemma find_not_empty (collection : list text_record) (url : string) :
  url ∈ Mongo.distinct collection ->
  exists data, data ∈ Mongo.find url collection.
Proof.
  intros Hurl. apply elem_of_distinct, list_elem_of_In, in_map_iff in Hurl
    as (data & Hdata & Hin).
  exists data. apply list_elem_of_filter. split; [done|].
  by apply list_elem_of_In.
Qed.

(** C9, for a store whose texts are all strings and whose degrees of
    separation [int] converts to values from 1 to [MAX_DEGREE]: the corpus
    has exactly one document per distinct base identifier; its words are
    the split texts of the records of that identifier, in order, and its
    degree of separation is the greatest that those records report. *)
Theorem get_corpus_groups (collection : list text_record) :
  Forall (fun data =>
            is_str (rec_text data) /\
            exists z, int_of_value (rec_deg_sep data) = Ok z /\
                      (1 <= z <= MAX_DEGREE)%Z)
    collection ->
  exists corpus,
    get_corpus collection = Ok corpus /\
    NoDup (map get_base_url corpus) /\
    (forall url,
       url ∈ map get_base_url corpus <-> url ∈ map rec_base_url collection) /\
    Forall (fun doc =>
              let records := Mongo.find (get_base_url doc) collection in
              get_document doc = concat (map words_of records) /\
              Forall (fun data => (degree_of data <= get_deg_sep doc)%Z)
                records /\
              exists data, data ∈ records /\
                           degree_of data = get_deg_sep doc)
      corpus.
Proof.
  intros Hstore.
  assert (Forall loadable collection) as Hload.
  { eapply Forall_impl; [exact Hstore|].
    intros data [Hstr (z & Hz & _)]. split; [done|by exists z]. }
  assert (forall data, data ∈ collection -> (1 <= degree_of data <= 10)%Z)
    as Hdeg.
  { intros data Hdata.
    destruct (proj1 (Forall_forall _ _) Hstore data Hdata)
      as [_ (z & Hz & Hrange)].
    unfold degree_of. rewrite Hz. unfold MAX_DEGREE in Hrange. lia. }
  eexists. split.
  { unfold get_corpus. by apply for_each_load_document. }
  simpl.
  assert (Hurls : map get_base_url
            (map (fun url => foldl fold_record (Items.new url)
                               (Mongo.find url collection))
               (Mongo.distinct collection)) = Mongo.distinct collection).
  { rewrite List.map_map. erewrite map_ext; [apply map_id|].
    intros url. simpl. by rewrite base_url_foldl. }
  split_and!.
  - rewrite Hurls. apply NoDup_distinct.
  - intros url. rewrite Hurls. apply elem_of_distinct.
  - apply Forall_forall. intros doc Hdoc.
    apply list_elem_of_In, in_map_iff in Hdoc as (url & <- & Hurl).
    apply list_elem_of_In in Hurl.
    rewrite base_url_foldl. simpl.
    assert (forall data, data ∈ Mongo.find url collection ->
              (1 <= degree_of data <= 10)%Z) as Hgroup.
    { intros data Hin. apply Hdeg.
      by apply list_elem_of_filter in Hin as [_ Hin]. }
    rewrite deg_sep_foldl_max;
      [|done|apply Forall_forall; intros data Hin; by apply Hgroup].
    change (get_deg_sep (Items.new url)) with 1%Z.
    pose proof (foldl_max_ge (map degree_of (Mongo.find url collection)) 1)
      as [Hinit Hall].
    split_and!.
    + by rewrite document_foldl.
    + apply Forall_forall. intros data Hin.
      apply (proj1 (Forall_forall _ _) Hall).
      by apply list_elem_of_In, in_map, list_elem_of_In.
    + destruct (foldl_max_attained
                  (map degree_of (Mongo.find url collection)) 1) as [H1|Hin].
      * destruct (find_not_empty collection url Hurl) as (data & Hin).
        exists data. split; [done|]. rewrite H1.
        pose proof (Hgroup data Hin) as Hrange.
        assert (degree_of data <= 1)%Z; [|lia].
        rewrite <- H1. apply (proj1 (Forall_forall _ _) Hall).
        by apply list_elem_of_In, in_map, list_elem_of_In.
      * apply list_elem_of_In, in_map_iff in Hin as (data & Hdata & Hin).
        exists data. split; [by apply list_elem_of_In|done].
Qed.

End LoaderFacts.

Lemma get_corpus_groups_witness :
  exists corpus,
    get_corpus (fun _ => []) []
      [mkTextRecord "a" (PyStr "cat dog") (PyInt 3);
       mkTextRecord "b" (PyStr "dog bird") (PyStr "10");
       mkTextRecord "a" (PyStr " cat") (PyInt 1)] = Ok corpus /\
    corpus =
      [ {| base_url := "a"; document := ["cat"; "dog"; "cat"]; deg_sep := 3 |};
        {| base_url := "b"; document := ["dog"; "bird"]; deg_sep := 10 |} ]%string.
Proof.
  destruct (get_corpus_groups (fun _ => []) []
              [mkTextRecord "a" (PyStr "cat dog") (PyInt 3);
               mkTextRecord "b" (PyStr "dog bird") (PyStr "10");
               mkTextRecord "a" (PyStr " cat") (PyInt 1)])
    as (corpus & Hcorpus & _).
  - repeat (apply List.Forall_cons;
              [split; [reflexivity|
                       eexists; split; [vm_compute; reflexivity|
                                        unfold MAX_DEGREE; lia]]|]).
    apply List.Forall_nil.
  - exists corpus. split; [exact Hcorpus|].
    cut (Ok corpus = Ok
      [ {| base_url := "a"; document := ["cat"; "dog"; "cat"]; deg_sep := 3 |};
        {| base_url := "b"; document := ["dog"; "bird"]; deg_sep := 10 |} ]%string).
    + by intros [= ->].
    + rewrite <- Hcorpus. reflexivity.
Defined.

(** C9 as stated fails: a record whose text is not a string, or whose
    degree of separation [int] does not convert, makes the loader raise,
    so no document is returned; and, as the documents are modelled, a
    degree reported beyond 10 or below 1 is not the degree that the
    document carries. *)
Lemma get_corpus_rejects_records :
  get_corpus (fun _ => []) [] [mkTextRecord "a" (PyInt 42) (PyInt 1)] =
    Raise (AssertionError
             "Current type: <class 'int'>. Document needs to be a string or an unicode for stopwords to work") /\
  get_corpus (fun _ => []) [] [mkTextRecord "a" (PyStr "cat") PyNone] =
    Raise TypeError /\
  get_corpus (fun _ => []) [] [mkTextRecord "a" (PyStr "cat") (PyStr "far")] =
    Raise ValueError /\
  get_corpus (fun _ => []) [] [mkTextRecord "a" (PyStr "cat") (PyInt 15)] =
    Ok [ {| base_url := "a"; document := ["cat"]; deg_sep := 10 |} ]%string /\
  get_corpus (fun _ => []) [] [mkTextRecord "a" (PyStr "cat") (PyInt 0)] =
    Ok [ {| base_url := "a"; document := ["cat"]; deg_sep := 1 |} ]%string.
Proof. repeat split. Qed.

(** ** Sorting the indices of a distribution *)

Section Argsort.
Import Numpy.

Variable dist : list Q.

#[local] Instance weight_le_total : Total (weight_le dist).
Proof.
  intros i j. unfold weight_le.
  destruct (Qlt_le_dec (weight_at dist j) (weight_at dist i)) as [H|H].
  - right. by apply Qlt_le_weak.
  - by left.
Qed.

#[local] Instance weight_le_trans : Transitive (weight_le dist).
Proof. intros i j k. unfold weight_le. apply Qle_trans. Qed.

Lemma insert_index_Permutation (i : nat) (l : list nat) :
  insert_index dist i l ≡ₚ i :: l.
Proof.
  induction l as [|j l IH]; simpl; [done|].
  destruct (decide (weight_le dist i j)); [done|].
  by rewrite IH, Permutation_swap.
Qed.

Lemma insert_index_sorted (i : nat) (l : list nat) :
  StronglySorted (weight_le dist) l ->
  StronglySorted (weight_le dist) (insert_index dist i l).
Proof.
  induction 1 as [|j l Hl IH Hj]; simpl.
  - repeat constructor.
  - destruct (decide (weight_le dist i j)) as [Hle|Hnle].
    + constructor; [by constructor|]. constructor; [done|].
      eapply Forall_impl; [exact Hj|]. intros k Hk. by transitivity j.
    + constructor; [done|]. rewrite insert_index_Permutation.
      constructor; [|done]. by destruct (total (weight_le dist) i j).
Qed.

Lemma sort_Permutation (l : list nat) :
  foldr (insert_index dist) [] l ≡ₚ l.
Proof.
  induction l as [|i l IH]; simpl; [done|].
  by rewrite insert_index_Permutation, IH.
Qed.

Lemma sort_sorted (l : list nat) :
  StronglySorted (weight_le dist) (foldr (insert_index dist) [] l).
Proof.
  induction l as [|i l IH]; simpl; [constructor|].
  by apply insert_index_sorted.
Qed.

Lemma argsort_Permutation : argsort dist ≡ₚ seq 0 (length dist).
Proof. apply sort_Permutation. Qed.

Lemma argsort_sorted : StronglySorted (weight_le dist) (argsort dist).
Proof. apply sort_sorted. Qed.

Lemma argsort_length : length (argsort dist) = length dist.
Proof. by rewrite argsort_Permutation, length_seq. Qed.

Lemma argsort_bound : Forall (fun i => i < length dist) (argsort dist).
Proof.
  apply Forall_forall. intros i Hi. rewrite argsort_Permutation in Hi.
  apply elem_of_seq in Hi. lia.
Qed.

End Argsort.

Lemma take_indices_in_range {A} (a : list A) (idx : list nat) (d : A) :
  Forall (fun i => i < length a) idx ->
  Numpy.take_indices a idx = Ok (map (fun j => nth j a d) idx).
Proof.
  induction 1 as [|i idx Hi _ IH]; simpl; [done|].
  destruct (lookup_lt_is_Some_2 a i Hi) as [x Hx].
  rewrite Hx, IH. simpl. do 2 f_equal.
  symmetry. by apply nth_lookup_Some.
Qed.

Lemma slice_stop_exclude {A} (n : Z) (l : list A) :
  (0 <= n)%Z ->
  slice_stop (- (n + 1)) l = take (length l - S (Z.to_nat n)) l.
Proof.
  intros Hn. unfold slice_stop.
  destruct (Z.ltb_spec (- (n + 1)) 0); [|lia]. f_equal. lia.
Qed.

(** ** The topic lines *)

Section TopicsFacts.

Variable self : LDAM.
Variable n_words : Z.
Hypothesis n_words_nonneg : (0 <= n_words)%Z.

Lemma topic_line_fitted (i : nat) (top_dist : list Q) :
  length top_dist = length (terms self) ->
  topic_line self n_words i top_dist =
  emit (Str ("Topic " +:+ str_of_nat i +:+ ": "
             +:+ join " " (take (length (sorted_terms self top_dist)
                                 - S (Z.to_nat n_words))
                             (sorted_terms self top_dist)))).
Proof.
  intros Hlen. unfold topic_line.
  rewrite (take_indices_in_range _ _ ""%string).
  - simpl. by rewrite slice_stop_exclude.
  - rewrite <- Hlen. apply argsort_bound.
Qed.

Lemma for_trace_topic_line (g : nat -> nat) (dists : list (list Q)) :
  Forall (fun dist => length dist = length (terms self)) dists ->
  for_trace (fun it => topic_line self n_words it.1 it.2)
    (imap (fun i dist => (g i, dist)) dists) =
  (imap (fun i top_dist =>
           let sorted := sorted_terms self top_dist in
           Str ("Topic " +:+ str_of_nat (g i) +:+ ": "
                +:+ join " " (take (length sorted - S (Z.to_nat n_words)) sorted)))
     dists,
   Ok tt).
Proof.
  intros H. revert g. induction H as [|dist dists Hd _ IH]; intros g; [done|].
  rewrite !imap_cons. cbn [for_trace fst snd].
  rewrite topic_line_fitted by done.
  specialize (IH (g ∘ S)). unfold compose in *. by rewrite IH.
Qed.

End TopicsFacts.

(** What the slice of [topics(n)] does: the vocabulary and then, for each
    topic index in order, the labelled string of the terms sorted by
    ascending weight under that topic without the last [n + 1] of them. *)
Lemma topics_excludes_one_more (self : LDAM) (n_words : Z) :
  Forall (fun dist => length dist = length (terms self)) (topic_word_ self) ->
  (0 <= n_words)%Z ->
  topics self n_words = topics_excluding (S (Z.to_nat n_words)) self /\
  Forall (fun dist =>
            Numpy.argsort dist ≡ₚ seq 0 (length dist) /\
            StronglySorted (Numpy.weight_le dist) (Numpy.argsort dist))
    (topic_word_ self).
Proof.
  intros Hfit Hn. split.
  - unfold topics, topics_excluding.
    rewrite (for_trace_topic_line self n_words Hn id) by done.
    reflexivity.
  - apply Forall_forall. intros dist _. split.
    + apply argsort_Permutation.
    + apply argsort_sorted.
Qed.

Lemma topics_excludes_one_more_witness :
  topics small_model 1 = topics_excluding 2 small_model /\
  Forall (fun dist =>
            Numpy.argsort dist ≡ₚ seq 0 (length dist) /\
            StronglySorted (Numpy.weight_le dist) (Numpy.argsort dist))
    (topic_word_ small_model).
Proof.
  apply (topics_excludes_one_more small_model 1).
  - repeat constructor.
  - lia.
Defined.

(** For [n = 1] the strings yielded leave out two terms, not one. *)
Lemma topics_not_excluding_top_n :
  topics small_model 1 =
    ([Terms ["a"; "b"; "c"]; Str "Topic 0: a"; Str "Topic 1: c"]%string, Ok tt) /\
  topics_excluding 1 small_model =
    ([Terms ["a"; "b"; "c"]; Str "Topic 0: a b"; Str "Topic 1: c b"]%string, Ok tt) /\
  topics small_model 1 <> topics_excluding (Z.to_nat 1) small_model.
Proof.
  split; [by vm_compute|]. split; [by vm_compute|].
  vm_compute. discriminate.
Qed.

(** C6, at a model of three terms under two topics and [n = 1]: under
    topic 0 the weights of a, b and c are 1/10, 2/10 and 7/10, so the top
    term is c; [topics] yields "Topic 0: a", the lowest-weighted term
    alone, where the slice that leaves out the top term is "a b". *)
Theorem topics_small_model :
  topics small_model 1 =
    ([Terms ["a"; "b"; "c"]; Str "Topic 0: a"; Str "Topic 1: c"]%string,
     Ok tt) /\
  topics_excluding 1 small_model =
    ([Terms ["a"; "b"; "c"]; Str "Topic 0: a b"; Str "Topic 1: c b"]%string,
     Ok tt) /\
  Numpy.argmax [1 # 10; 2 # 10; 7 # 10] = Ok 2 /\
  terms small_model !! 2 = Some "c"%string.
Proof. repeat split. Qed.

(** ** The top topic of a document *)

Section Argmax.
Import Numpy.

Lemma weight_at_app_l (pre rest : list Q) (j : nat) :
  j < length pre -> weight_at (pre ++ rest) j = weight_at pre j.
Proof. intros Hj. unfold weight_at. by apply app_nth1. Qed.

Lemma weight_at_app_here (pre rest : list Q) (x : Q) :
  weight_at (pre ++ x :: rest) (length pre) = x.
Proof. unfold weight_at. by rewrite app_nth2, Nat.sub_diag by lia. Qed.

Lemma argmax_go_spec (rest pre : list Q) (best_i : nat) :
  best_i < length pre ->
  (forall j, j < length pre -> (weight_at pre j <= weight_at pre best_i)%Q) ->
  (forall j, j < best_i -> (weight_at pre j < weight_at pre best_i)%Q) ->
  is_argmax (pre ++ rest)
    (argmax_go best_i (weight_at pre best_i) (length pre) rest).
Proof.
  revert pre best_i. induction rest as [|x rest IH]; intros pre best_i Hb Hmax Hfirst.
  - simpl. rewrite app_nil_r. by split_and!.
  - simpl. pose proof (IH (pre ++ [x])) as IH'.
    rewrite <- app_assoc, length_app in IH'. simpl in IH'.
    rewrite Nat.add_1_r in IH'.
    destruct (decide (x <= weight_at pre best_i)%Q) as [Hle|Hgt].
    + specialize (IH' best_i).
      rewrite (weight_at_app_l pre [x] best_i) in IH' by done.
      apply IH'.
      * lia.
      * intros j Hj. destruct (decide (j = length pre)) as [->|Hne].
        -- by rewrite weight_at_app_here.
        -- rewrite weight_at_app_l by lia. apply Hmax. lia.
      * intros j Hj. rewrite weight_at_app_l by lia. by apply Hfirst.
    + apply Qnot_le_lt in Hgt. specialize (IH' (length pre)).
      rewrite weight_at_app_here in IH'.
      apply IH'.
      * lia.
      * intros j Hj. destruct (decide (j = length pre)) as [->|Hne].
        -- rewrite weight_at_app_here. apply Qle_refl.
        -- rewrite weight_at_app_l by lia. apply Qlt_le_weak.
           eapply Qle_lt_trans; [apply Hmax; lia|done].
      * intros j Hj. rewrite weight_at_app_l by lia.
        eapply Qle_lt_trans; [apply Hmax; lia|done].
Qed.

Lemma argmax_spec (row : list Q) :
  row <> [] -> exists k, argmax row = Ok k /\ is_argmax row k.
Proof.
  destruct row as [|x row]; [done|]. intros _. eexists. split; [done|].
  apply (argmax_go_spec row [x] 0).
  - simpl. lia.
  - intros [|j] Hj; simpl in *; [apply Qle_refl|lia].
  - intros j Hj. lia.
Qed.

End Argmax.

Section PrintFacts.

Variable self : LDAM.
Hypothesis one_row_per_title :
  length (doc_topic_ self) = length (documents self).
Hypothesis rows_not_empty : Forall (fun row => row <> []) (doc_topic_ self).

Lemma for_trace_doc_topic_line (n i : nat) :
  i + n <= length (documents self) ->
  exists tops,
    for_trace (doc_topic_line self) (seq i n) =
      (zip_with doc_topic_format (take n (drop i (documents self))) tops, Ok tt) /\
    Forall2 is_argmax (take n (drop i (doc_topic_ self))) tops.
Proof.
  revert i. induction n as [|n IH]; intros i Hi.
  - exists []. split; [done|]. rewrite take_0. constructor.
  - destruct (lookup_lt_is_Some_2 (documents self) i) as [title Ht]; [lia|].
    destruct (lookup_lt_is_Some_2 (doc_topic_ self) i) as [row Hr]; [lia|].
    destruct (argmax_spec row) as (k & Hk & Hmax).
    { apply (proj1 (Forall_forall _ _) rows_not_empty).
      by eapply list_elem_of_lookup_2. }
    destruct (IH (S i)) as (tops & Htops & Hall); [lia|].
    exists (k :: tops). cbn [seq for_trace]. rewrite Htops.
    rewrite (drop_S _ _ _ Ht), (drop_S _ _ _ Hr). simpl.
    unfold doc_topic_line. rewrite Hr, Ht, Hk. simpl. split; [done|].
    by constructor.
Qed.

End PrintFacts.

(** For a model with one row of the document-topic distribution per
    title, [printDocTopic] prints, in title order, each title with the first
    index of the greatest entry of the row at the title's index. *)
Lemma printDocTopic_top_topics (self : LDAM) :
  length (doc_topic_ self) = length (documents self) ->
  Forall (fun row => row <> []) (doc_topic_ self) ->
  exists tops,
    printDocTopic self = (zip_with doc_topic_format (documents self) tops, Ok tt) /\
    Forall2 is_argmax (doc_topic_ self) tops.
Proof.
  intros Hlen Hrows.
  destruct (for_trace_doc_topic_line self Hlen Hrows
              (length (documents self)) 0) as (tops & Hp & Hall); [lia|].
  rewrite ?drop_0 in Hp. rewrite ?drop_0 in Hall.
  rewrite firstn_all in Hp. rewrite <- Hlen, firstn_all in Hall.
  by exists tops.
Qed.

Lemma printDocTopic_top_topics_witness :
  exists tops,
    printDocTopic small_model =
      (zip_with doc_topic_format (documents small_model) tops, Ok tt) /\
    Forall2 is_argmax (doc_topic_ small_model) tops.
Proof.
  apply (printDocTopic_top_topics small_model).
  - reflexivity.
  - repeat constructor; discriminate.
Defined.

(** C7, at the scenario of the specification, fitted under the inverse
    power law of exponent 1: rows 0 to 9 of the matrix belong to document
    "a" and row 10 to document "b", whose row of the document-topic
    distribution has its greatest entry at topic 1; [printDocTopic] pairs
    the title at index 1, "b", with the row at index 1, a row of "a", and
    prints topic 0 for "b". *)
Theorem printDocTopic_scenario :
  exists matrix terms self,
    createDocTermMat (Models.power_law 1) scenario =
      Ok (matrix, terms, ["a"; "b"]%string) /\
    fit (Models.power_law 1) scenario_fit scenario = Ok self /\
    documents self = ["a"; "b"]%string /\
    doc_topic_ self = (scenario_fit matrix).2 /\
    matrix !! 1 = Some (row_of terms doc_a) /\
    matrix !! 10 = Some (row_of terms doc_b) /\
    (exists row, doc_topic_ self !! 10 = Some row /\ Numpy.argmax row = Ok 1) /\
    printDocTopic self =
      (["a (top topic: 0)"; "b (top topic: 0)"]%string, Ok tt).
Proof.
  eexists _, _, _. split; [vm_compute; reflexivity|].
  split; [vm_compute; reflexivity|].
  repeat split. eexists. split; reflexivity.
Qed.

Example printDocTopic_small_model :
  printDocTopic small_model =
  (["d1 (top topic: 1)"; "d2 (top topic: 0)"]%string, Ok tt).
Proof. reflexivity. Qed.

(** * Further properties *)

(** ** Failure and cut-off of the weighting function *)


(** X2: where the weight is positive but below the weight at [MAX_DEGREE],
    as it is beyond [MAX_DEGREE] for a decreasing weighting function, the
    replication count is 0. *)
Theorem apply_weighting_below_max (fn : Z -> result Q) (d : Z) (a b : Q) :
  fn d = Ok a -> fn MAX_DEGREE = Ok b ->
  (0 < a)%Q -> (a < b)%Q ->
  apply_weighting d fn = Ok 0%Z.
Proof.
  intros Ha Hb Hpos Hlt.
  assert (0 < b)%Q as Hbpos by (by apply Qlt_trans with a).
  unfold apply_weighting. rewrite Ha, Hb. simpl.
  rewrite truediv_ok by done. simpl. f_equal.
  assert (0 <= a / b)%Q as H0.
  { apply Qle_shift_div_l; [done|]. rewrite Qmult_0_l. by apply Qlt_le_weak. }
  assert (a / b < 1)%Q as H1.
  { apply Qlt_shift_div_r; [done|]. by rewrite Qmult_1_l. }
  rewrite int_nonneg by done.
  pose proof (Qfloor_le (a / b)) as Hfl.
  pose proof (Qfloor_resp_le _ _ H0) as Hge. change (Qfloor 0) with 0%Z in Hge.
  assert (inject_Z (Qfloor (a / b)) < inject_Z 1)%Q as Hup.
  { eapply Qle_lt_trans; [exact Hfl|exact H1]. }
  rewrite <- Zlt_Qlt in Hup. lia.
Qed.

Lemma apply_weighting_below_max_witness :
  apply_weighting 11 (Models.power_law 1) = Ok 0%Z.
Proof.
  apply (apply_weighting_below_max (Models.power_law 1) 11 (1 # 11) (1 # 10));
    reflexivity.
Defined.

(** ** The matrix of [createDocTermMat] *)

Lemma get_incr (d : list (string * nat)) (k w : string) :
  Textmining.get (Textmining.incr d k) w =
  if decide (k = w) then S (Textmining.get d w) else Textmining.get d w.
Proof.
  induction d as [|[k' n] d IH]; simpl.
  - by destruct (decide (k = w)).
  - destruct (decide (k' = k)) as [->|Hne]; simpl.
    + by destruct (decide (k = w)).
    + rewrite IH. destruct (decide (k' = w)) as [->|]; [|done].
      by rewrite decide_False by done.
Qed.

Lemma get_foldl_incr (ws : list string) (d : list (string * nat)) (w : string) :
  Textmining.get (foldl Textmining.incr d ws) w =
  Textmining.get d w + length (filter (fun x => x = w) ws).
Proof.
  revert d. induction ws as [|k ws IH]; intros d; simpl; [lia|].
  rewrite IH, get_incr. destruct (decide (k = w)) as [->|Hne].
  - rewrite filter_cons_True by done. simpl. lia.
  - by rewrite filter_cons_False by done.
Qed.

Lemma row_of_occurrences (terms : list string) (document : DocumentItem) :
  row_of terms document = map (fun term => occurrences term document) terms.
Proof.
  unfold row_of, occurrences, word_counts. apply map_ext. intros term.
  by rewrite get_foldl_incr.
Qed.

Lemma map_inserted {B} (f : string -> B) (dataset : list DocumentItem)
    (weights : list Z) :
  map f (inserted dataset weights) =
  concat (zip_with (fun d w => replicate (range_len w) (f (text_of d)))
            dataset weights).
Proof.
  unfold inserted. revert weights.
  induction dataset as [|d ds IH]; intros [|w ws]; simpl; try done.
  rewrite List.map_app, IH. f_equal.
  induction (range_len w) as [|n IHn]; simpl; [done|]. by rewrite IHn.
Qed.

(** X3: the matrix is rectangular, one column per term; each document
    contributes, in the order of the dataset, as many identical consecutive
    rows as its weight, negative weights counting as none; and each cell of
    these rows is the number of occurrences of the column's term among the
    tokens of the document. *)
Theorem createDocTermMat_matrix (power_law : Z -> result Q)
    (dataset : list DocumentItem) (matrix : list (list nat))
    (terms titles : list string) :
  createDocTermMat power_law dataset = Ok (matrix, terms, titles) ->
  exists weights,
    weights_of power_law dataset weights /\
    matrix =
      concat (zip_with
                (fun d w =>
                   replicate (range_len w)
                     (map (fun term => occurrences term d) terms))
                dataset weights) /\
    Forall (fun row => length row = length terms) matrix.
Proof.
  intros H. apply createDocTermMat_inserted in H
    as (weights & Hw & -> & Hterms & ->).
  exists weights. split; [done|]. split.
  - rewrite (map_inserted (fun t => map (Textmining.get (word_counts t)) terms)).
    f_equal. apply zip_with_ext; [|done|done].
    intros d w. f_equal. apply (row_of_occurrences terms d).
  - apply Forall_forall. intros row Hrow.
    apply list_elem_of_In, in_map_iff in Hrow as (t & <- & _).
    by rewrite length_map.
Qed.

Lemma createDocTermMat_matrix_witness :
  exists weights,
    weights_of (Models.power_law 1) scenario weights /\
    replicate 10 [2; 1; 0] ++ [[0; 1; 1]] =
      concat (zip_with
                (fun d w =>
                   replicate (range_len w)
                     (map (fun term => occurrences term d)
                        ["cat"; "dog"; "bird"]%string))
                scenario weights) /\
    Forall (fun row => length row = length ["cat"; "dog"; "bird"]%string)
      (replicate 10 [2; 1; 0] ++ [[0; 1; 1]]).
Proof.
  apply (createDocTermMat_matrix (Models.power_law 1) scenario
           (replicate 10 [2; 1; 0] ++ [[0; 1; 1]])
           ["cat"; "dog"; "bird"]%string ["a"; "b"]%string).
  reflexivity.
Defined.

Lemma for_each_add_document_raises (power_law : Z -> result Q)
    (dataset : list DocumentItem) (st : assembly) (e : exn) :
  for_each (add_document power_law) dataset st = Raise e <->
  exists before document after,
    dataset = before ++ document :: after /\
    (exists weights, weights_of power_law before weights) /\
    apply_weighting (get_deg_sep document) power_law = Raise e.
Proof.
  revert st. induction dataset as [|d ds IH]; intros [m titles]; simpl.
  - split; [done|]. intros (before & doc & after & H & _).
    by destruct before.
  - destruct (apply_weighting (get_deg_sep d) power_law) as [w|e'] eqn:Ew; simpl.
    + rewrite IH. split.
      * intros (before & doc & after & -> & (ws & Hws) & He).
        exists (d :: before), doc, after. split; [done|]. split; [|done].
        exists (w :: ws). by constructor.
      * intros (before & doc & after & Hds & (ws & Hws) & He).
        destruct before as [|d' before]; simpl in Hds.
        -- injection Hds as <- <-. congruence.
        -- injection Hds as <- ->. inversion Hws; subst.
           exists before, doc, after. split; [done|]. split; [|done].
           by eexists.
    + split.
      * intros [= <-]. exists [], d, ds. split; [done|]. split; [|done].
        exists []. constructor.
      * intros (before & doc & after & Hds & (ws & Hws) & He).
        destruct before as [|d' before]; simpl in Hds.
        -- injection Hds as <- <-. congruence.
        -- injection Hds as <- ->. inversion Hws; subst. congruence.
Qed.

(** X4: [createDocTermMat] raises exactly the error of the first document
    whose weighting raises; it returns nothing for the documents before
    it. *)
Theorem createDocTermMat_raises (power_law : Z -> result Q)
    (dataset : list DocumentItem) (e : exn) :
  createDocTermMat power_law dataset = Raise e <->
  exists before document after,
    dataset = before ++ document :: after /\
    (exists weights, weights_of power_law before weights) /\
    apply_weighting (get_deg_sep document) power_law = Raise e.
Proof.
  rewrite <- (for_each_add_document_raises power_law dataset
                (Textmining.new, []) e).
  unfold createDocTermMat.
  destruct (for_each _ _ _) as [[m ti]|e']; simpl.
  - split; intros [=].
  - split; intros [= ->]; done.
Qed.

(** X5: when every document has weight 1, as at [MAX_DEGREE], the matrix
    has exactly one row per title: the row at an index is the row of the
    document whose base identifier is the title at that index. *)
Theorem createDocTermMat_aligned (power_law : Z -> result Q)
    (dataset : list DocumentItem) :
  Forall (fun d => apply_weighting (get_deg_sep d) power_law = Ok 1%Z)
    dataset ->
  exists terms,
    createDocTermMat power_law dataset =
    Ok (map (fun d => map (fun term => occurrences term d) terms) dataset,
        terms, map get_base_url dataset).
Proof.
  intros H1.
  assert (weights_of power_law dataset (replicate (length dataset) 1%Z)) as Hw.
  { induction H1; simpl; by constructor. }
  destruct (createDocTermMat_rows power_law dataset _ Hw)
    as (matrix & terms & titles & H & -> & _).
  exists terms. rewrite H. do 3 f_equal.
  apply createDocTermMat_inserted in H as (weights & Hw' & _ & _ & ->).
  rewrite (map_inserted (fun t => map (Textmining.get (word_counts t)) terms)).
  clear Hw. induction Hw' as [|d w ds ws Hd _ IH]; [done|].
  inversion H1 as [|? ? Hd1 Hds1]; subst.
  rewrite Hd in Hd1. injection Hd1 as ->. simpl.
  rewrite IH by done. f_equal. apply (row_of_occurrences terms d).
Qed.

Lemma createDocTermMat_aligned_witness :
  exists terms,
    createDocTermMat (Models.power_law 2)
      [doc_b; {| base_url := "c"; document := ["Bird"; "bird"]; deg_sep := 10 |}] =
    Ok (map (fun d => map (fun term => occurrences term d) terms)
          [doc_b; {| base_url := "c"; document := ["Bird"; "bird"]; deg_sep := 10 |}],
        terms,
        map get_base_url
          [doc_b; {| base_url := "c"; document := ["Bird"; "bird"]; deg_sep := 10 |}]).
Proof.
  apply (createDocTermMat_aligned (Models.power_law 2)).
  repeat constructor.
Defined.

(** ** The tokens behind the vocabulary *)

Lemma chars_map_string (f : ascii -> ascii) (s : string) :
  chars (Textmining.map_string f s) = map f (chars s).
Proof. induction s as [|c s IH]; simpl; [done|]. by rewrite IH. Qed.

Lemma split_go_chars (P : ascii -> Prop) (tok s : string) :
  Forall P (chars tok) -> Forall P (chars s) ->
  Forall (fun t => Forall P (chars t)) (split_go isspace tok s).
Proof.
  revert tok. induction s as [|c s IH]; intros tok Htok Hs; simpl.
  - destruct (decide (tok = "")); repeat constructor; done.
  - inversion Hs as [|? ? Hc Hs']; subst.
    destruct (isspace c).
    + destruct (decide (tok = "")).
      * apply IH; [constructor|done].
      * constructor; [done|]. apply IH; [constructor|done].
    + apply IH; [|done]. rewrite chars_app. apply Forall_app.
      split; [done|]. by repeat constructor.
Qed.

Lemma simple_tokenize_letters (document : string) :
  Forall (fun t => t <> ""%string /\
                   Forall (fun c => Textmining.is_a_z c = true) (chars t))
    (Textmining.simple_tokenize document).
Proof.
  unfold Textmining.simple_tokenize.
  set (blanked := Textmining.map_string _ (Textmining.map_string _ document)).
  pose proof (split_tokens blanked) as Htok.
  assert (Forall (fun t => Forall (fun c => Textmining.is_a_z c = true \/
                                            c = " "%char) (chars t))
            (Py.split blanked)) as Hchars.
  { apply split_go_chars; [constructor|].
    unfold blanked. rewrite chars_map_string. apply Forall_forall.
    intros c Hc. apply list_elem_of_In, in_map_iff in Hc as (c' & <- & _).
    destruct (Textmining.is_a_z c') eqn:E; [by left|by right]. }
  apply Forall_forall. intros t Ht.
  pose proof (proj1 (Forall_forall _ _) Htok t Ht) as [Hne Hns].
  pose proof (proj1 (Forall_forall _ _) Hchars t Ht) as Haz.
  split; [done|]. apply Forall_forall. intros c Hc.
  pose proof (proj1 (Forall_forall _ _) Hns c Hc) as Hnot.
  destruct (proj1 (Forall_forall _ _) Haz c Hc) as [H| ->]; [done|].
  discriminate Hnot.
Qed.

(** X6: every term of the vocabulary is a non-empty string of the lower-case
    letters a to z. *)
Theorem createDocTermMat_terms_letters (power_law : Z -> result Q)
    (dataset : list DocumentItem) (matrix : list (list nat))
    (terms titles : list string) :
  createDocTermMat power_law dataset = Ok (matrix, terms, titles) ->
  Forall (fun term => term <> ""%string /\
                      Forall (fun c => Textmining.is_a_z c = true) (chars term))
    terms.
Proof.
  intros H. apply createDocTermMat_inserted in H
    as (weights & Hw & _ & -> & _).
  apply Forall_forall. intros term Hterm.
  apply elem_of_doc_count_add_docs in Hterm
    as [(t & _ & Ht)|Hin]; [|by apply elem_of_nil in Hin|done].
  by apply (proj1 (Forall_forall _ _) (simple_tokenize_letters t)).
Qed.

Lemma createDocTermMat_terms_letters_witness :
  Forall (fun term => term <> ""%string /\
                      Forall (fun c => Textmining.is_a_z c = true) (chars term))
    ["cat"; "x"; "dog"]%string.
Proof.
  apply (createDocTermMat_terms_letters (Models.power_law 1)
           [ {| base_url := "a"; document := ["Cat1x"; "dog"; "cat"];
                deg_sep := 10 |} ]%string
           [[2; 1; 1]] ["cat"; "x"; "dog"]%string ["a"]%string).
  reflexivity.
Defined.

Lemma sum_indicator (K : list string) (x : string) :
  NoDup K -> x ∈ K ->
  sum_list (map (fun w => if decide (x = w) then 1 else 0) K) = 1.
Proof.
  induction 1 as [|k K Hk HK IH]; intros Hx.
  - by apply elem_of_nil in Hx.
  - simpl. destruct (decide (x = k)) as [->|Hne].
    + assert (sum_list (map (fun w => if decide (k = w) then 1 else 0) K) = 0)
        as ->; [|done].
      clear IH HK Hx. induction K as [|k' K IH]; [done|]. simpl.
      apply not_elem_of_cons in Hk as [Hne Hk].
      rewrite decide_False by done. by rewrite IH.
    + apply elem_of_cons in Hx as [?|Hx]; [done|]. by rewrite IH.
Qed.

Lemma sum_map_add {A} (f g : A -> nat) (l : list A) :
  sum_list (map (fun x => f x + g x) l) =
  sum_list (map f l) + sum_list (map g l).
Proof. induction l as [|x l IH]; simpl; [done|]. rewrite IH. lia. Qed.

Lemma sum_counts (K ws : list string) :
  NoDup K -> (forall x, x ∈ ws -> x ∈ K) ->
  sum_list (map (fun w => length (filter (fun x => x = w) ws)) K) = length ws.
Proof.
  intros HK. induction ws as [|x ws IH]; intros Hsub.
  - simpl. clear. induction K as [|k K IH]; [done|]. simpl. by rewrite IH.
  - rewrite (map_ext _
      (fun w => (if decide (x = w) then 1 else 0)
                + length (filter (fun x => x = w) ws))).
    + rewrite sum_map_add, sum_indicator, IH; [done| |done|].
      * intros y Hy. apply Hsub. by right.
      * apply Hsub. by left.
    + intros w. destruct (decide (x = w)) as [->|Hne].
      * by rewrite filter_cons_True by done.
      * by rewrite filter_cons_False by done.
Qed.

(** X7: the cut-off of 1 loses no token of an inserted document: the cells
    of every row of the matrix add up to the number of tokens of the
    document that the row was inserted for. *)
Theorem createDocTermMat_row_total (power_law : Z -> result Q)
    (dataset : list DocumentItem) (matrix : list (list nat))
    (terms titles : list string) :
  createDocTermMat power_law dataset = Ok (matrix, terms, titles) ->
  exists weights,
    weights_of power_law dataset weights /\
    map sum_list matrix =
      concat (zip_with
                (fun d w =>
                   replicate (range_len w)
                     (length (Textmining.simple_tokenize (text_of d))))
                dataset weights).
Proof.
  intros H. apply createDocTermMat_inserted in H
    as (weights & Hw & _ & Hterms & ->).
  exists weights. split; [done|].
  rewrite List.map_map.
  rewrite <- (map_inserted
                (fun t => length (Textmining.simple_tokenize t))).
  apply map_ext_in. intros t Ht. apply list_elem_of_In in Ht.
  rewrite (map_ext _ (fun w => length (filter (fun x => x = w)
                                         (Textmining.simple_tokenize t))))
    by (intros w; unfold word_counts; by rewrite get_foldl_incr).
  apply sum_counts.
  - rewrite Hterms. apply NoDup_doc_count_add_docs. constructor.
  - intros x Hx. rewrite Hterms.
    apply elem_of_doc_count_add_docs; [done|]. left. by exists t.
Qed.

Lemma createDocTermMat_row_total_witness :
  exists weights,
    weights_of (Models.power_law 1) scenario weights /\
    map sum_list (replicate 10 [2; 1; 0] ++ [[0; 1; 1]]) =
      concat (zip_with
                (fun d w =>
                   replicate (range_len w)
                     (length (Textmining.simple_tokenize (text_of d))))
                scenario weights).
Proof.
  apply (createDocTermMat_row_total (Models.power_law 1) scenario
           (replicate 10 [2; 1; 0] ++ [[0; 1; 1]])
           ["cat"; "dog"; "bird"]%string ["a"; "b"]%string).
  reflexivity.
Defined.

(** ** Which terms [topics] lists *)

Lemma slice_stop_map {A B} (f : A -> B) (stop : Z) (l : list A) :
  slice_stop stop (map f l) = map f (slice_stop stop l).
Proof. unfold slice_stop. by rewrite length_map, firstn_map. Qed.

Lemma topic_line_listed (self : LDAM) (n_words : Z) (i : nat)
    (top_dist : list Q) :
  length top_dist = length (terms self) ->
  topic_line self n_words i top_dist =
  emit (Str ("Topic " +:+ str_of_nat i +:+ ": "
             +:+ join " " (map (fun j => nth j (terms self) ""%string)
                             (listed n_words top_dist)))).
Proof.
  intros Hlen. unfold topic_line, listed.
  rewrite (take_indices_in_range _ _ ""%string).
  - simpl. by rewrite slice_stop_map.
  - rewrite <- Hlen. apply argsort_bound.
Qed.

Lemma for_trace_topic_line_listed (self : LDAM) (n_words : Z)
    (g : nat -> nat) (dists : list (list Q)) :
  Forall (fun dist => length dist = length (terms self)) dists ->
  for_trace (fun it => topic_line self n_words it.1 it.2)
    (imap (fun i dist => (g i, dist)) dists) =
  (imap (fun i top_dist =>
           Str ("Topic " +:+ str_of_nat (g i) +:+ ": "
                +:+ join " " (map (fun j => nth j (terms self) ""%string)
                                (listed n_words top_dist))))
     dists,
   Ok tt).
Proof.
  intros H. revert g. induction H as [|dist dists Hd _ IH]; intros g; [done|].
  rewrite !imap_cons. cbn [for_trace fst snd].
  rewrite topic_line_listed by done.
  specialize (IH (g ∘ S)). unfold compose in *. by rewrite IH.
Qed.

Lemma topics_listed (self : LDAM) (n_words : Z) :
  Forall (fun dist => length dist = length (terms self)) (topic_word_ self) ->
  topics self n_words =
  (Terms (terms self)
   :: imap (fun i top_dist =>
              Str ("Topic " +:+ str_of_nat i +:+ ": "
                   +:+ join " " (map (fun j => nth j (terms self) ""%string)
                                   (listed n_words top_dist))))
        (topic_word_ self),
   Ok tt).
Proof.
  intros Hfit. unfold topics.
  by rewrite (for_trace_topic_line_listed self n_words id).
Qed.

Lemma listed_lowest (n_words : Z) (dist : list Q) :
  (0 <= n_words)%Z ->
  NoDup (listed n_words dist) /\
  length (listed n_words dist) = length dist - S (Z.to_nat n_words) /\
  forall i j,
    i ∈ listed n_words dist -> j < length dist -> j ∉ listed n_words dist ->
    Numpy.weight_le dist i j.
Proof.
  intros Hn. unfold listed. rewrite slice_stop_exclude by done.
  rewrite argsort_length.
  set (k := length dist - S (Z.to_nat n_words)).
  pose proof (argsort_Permutation dist) as Hperm.
  pose proof (argsort_sorted dist) as Hsorted.
  rewrite <- (take_drop k (Numpy.argsort dist)) in Hperm, Hsorted.
  assert (NoDup (take k (Numpy.argsort dist) ++ drop k (Numpy.argsort dist)))
    as Hnodup by (rewrite Hperm; apply NoDup_seq).
  apply NoDup_app in Hnodup as (Hnd & _ & _).
  split_and!.
  - done.
  - rewrite length_take, argsort_length. lia.
  - intros i j Hi Hj Hnot.
    apply (StronglySorted_app_1_elem_of _ _ _ _ _ Hsorted Hi).
    assert (j ∈ take k (Numpy.argsort dist) ++ drop k (Numpy.argsort dist))
      as Hin.
    { rewrite Hperm. apply elem_of_seq. lia. }
    apply elem_of_app in Hin as [Hin|Hin]; done.
Qed.

(** X9: for a fitted model and [n >= 0], the string that [topics(n)] yields
    for a topic lists [len - (n + 1)] distinct term indices, and the weight
    of every listed index is at most the weight of every index left out:
    the terms listed are the lowest-weighted ones, never the top ones. *)
Theorem topics_lists_lowest (self : LDAM) (n_words : Z) :
  Forall (fun dist => length dist = length (terms self)) (topic_word_ self) ->
  (0 <= n_words)%Z ->
  topics self n_words =
    (Terms (terms self)
     :: imap (fun i top_dist =>
                Str ("Topic " +:+ str_of_nat i +:+ ": "
                     +:+ join " " (map (fun j => nth j (terms self) ""%string)
                                     (listed n_words top_dist))))
          (topic_word_ self),
     Ok tt) /\
  Forall (fun dist =>
            NoDup (listed n_words dist) /\
            length (listed n_words dist) = length dist - S (Z.to_nat n_words) /\
            forall i j,
              i ∈ listed n_words dist -> j < length dist ->
              j ∉ listed n_words dist -> Numpy.weight_le dist i j)
    (topic_word_ self).
Proof.
  intros Hfit Hn. split; [by apply topics_listed|].
  apply Forall_forall. intros dist _. by apply listed_lowest.
Qed.

Lemma topics_lists_lowest_witness :
  topics small_model 0 =
    (Terms (terms small_model)
     :: imap (fun i top_dist =>
                Str ("Topic " +:+ str_of_nat i +:+ ": "
                     +:+ join " " (map (fun j => nth j (terms small_model) ""%string)
                                     (listed 0 top_dist))))
          (topic_word_ small_model),
     Ok tt) /\
  Forall (fun dist =>
            NoDup (listed 0 dist) /\
            length (listed 0 dist) = length dist - S (Z.to_nat 0) /\
            forall i j,
              i ∈ listed 0 dist -> j < length dist ->
              j ∉ listed 0 dist -> Numpy.weight_le dist i j)
    (topic_word_ small_model).
Proof.
  apply (topics_lists_lowest small_model 0).
  - repeat constructor.
  - lia.
Defined.

Lemma listed_nil (n_words : Z) (dist : list Q) :
  n_words = (-1)%Z \/ (Z.of_nat (length dist) <= n_words + 1)%Z ->
  listed n_words dist = [].
Proof.
  intros H. unfold listed, slice_stop. rewrite argsort_length.
  destruct (Z.ltb_spec (- (n_words + 1)) 0).
  - replace (Z.to_nat _) with 0 by lia. apply take_0.
  - replace (Z.to_nat _) with 0 by lia. apply take_0.
Qed.

(** X10: for a fitted model, when [n + 1] reaches the size of the vocabulary,
    and also when [n = -1], every string that [topics(n)] yields is the bare
    label of its topic, with no term at all. *)
Theorem topics_no_terms (self : LDAM) (n_words : Z) :
  Forall (fun dist => length dist = length (terms self)) (topic_word_ self) ->
  n_words = (-1)%Z \/ (Z.of_nat (length (terms self)) <= n_words + 1)%Z ->
  topics self n_words =
    (Terms (terms self)
     :: imap (fun i _ => Str ("Topic " +:+ str_of_nat i +:+ ": "))
          (topic_word_ self),
     Ok tt).
Proof.
  intros Hfit Hn. rewrite topics_listed by done. do 2 f_equal.
  apply imap_ext. intros i dist Hdist. simpl.
  rewrite listed_nil; [done|].
  apply list_elem_of_lookup_2 in Hdist.
  rewrite (proj1 (Forall_forall _ _) Hfit dist Hdist). done.
Qed.

Lemma topics_no_terms_witness :
  topics small_model 10 =
    (Terms (terms small_model)
     :: imap (fun i _ => Str ("Topic " +:+ str_of_nat i +:+ ": "))
          (topic_word_ small_model),
     Ok tt).
Proof.
  apply (topics_no_terms small_model 10).
  - repeat constructor.
  - right. simpl. lia.
Defined.

(** ** [printDocTopic] against the number of rows *)

Lemma for_trace_app {A B} (body : A -> trace B) (l1 l2 : list A) :
  for_trace body (l1 ++ l2) =
  trace_seq (for_trace body l1) (for_trace body l2).
Proof.
  induction l1 as [|x l1 IH]; simpl.
  - by destruct (for_trace body l2).
  - rewrite IH. unfold trace_seq.
    destruct (body x) as [out1 [[]|e1]]; simpl; [|done].
    destruct (for_trace body l1) as [out2 [[]|e2]]; simpl; [|done].
    by rewrite app_assoc.
Qed.

Lemma for_trace_doc_topic_in_range (self : LDAM) (n i : nat) :
  Forall (fun row => row <> []) (doc_topic_ self) ->
  i + n <= length (documents self) ->
  i + n <= length (doc_topic_ self) ->
  exists tops,
    Forall2 is_argmax (take n (drop i (doc_topic_ self))) tops /\
    for_trace (doc_topic_line self) (seq i n) =
      (zip_with doc_topic_format (take n (drop i (documents self))) tops,
       Ok tt).
Proof.
  intros Hrows. revert i. induction n as [|n IH]; intros i Hd Hr.
  - exists []. split; [rewrite take_0; constructor|done].
  - destruct (lookup_lt_is_Some_2 (documents self) i) as [title Ht]; [lia|].
    destruct (lookup_lt_is_Some_2 (doc_topic_ self) i) as [row Hrow]; [lia|].
    destruct (argmax_spec row) as (k & Hk & Hmax).
    { apply (proj1 (Forall_forall _ _) Hrows).
      by eapply list_elem_of_lookup_2. }
    destruct (IH (S i)) as (tops & Hall & Htops); [lia|lia|].
    exists (k :: tops). cbn [seq for_trace]. rewrite Htops.
    rewrite (drop_S _ _ _ Ht), (drop_S _ _ _ Hrow). simpl.
    unfold doc_topic_line. rewrite Hrow, Ht, Hk. simpl. split; [|done].
    by constructor.
Qed.

Lemma for_trace_doc_topic_out_of_range (self : LDAM) (n i : nat) :
  length (doc_topic_ self) <= i -> 0 < n ->
  for_trace (doc_topic_line self) (seq i n) = ([], Raise IndexError).
Proof.
  intros Hi Hn. destruct n as [|n]; [lia|]. cbn [seq for_trace].
  unfold doc_topic_line at 1.
  by rewrite (lookup_ge_None_2 (doc_topic_ self) i Hi).
Qed.

Lemma printDocTopic_enough_rows (self : LDAM) :
  Forall (fun row => row <> []) (doc_topic_ self) ->
  length (documents self) <= length (doc_topic_ self) ->
  exists tops,
    Forall2 is_argmax
      (take (length (documents self)) (doc_topic_ self)) tops /\
    printDocTopic self =
      (zip_with doc_topic_format (documents self) tops, Ok tt).
Proof.
  intros Hrows Hle. unfold printDocTopic.
  destruct (for_trace_doc_topic_in_range self (length (documents self)) 0
              Hrows) as (tops & Hall & Htops); [lia|lia|].
  rewrite ?drop_0 in Hall. rewrite ?drop_0 in Htops.
  rewrite firstn_all in Htops. by exists tops.
Qed.

Lemma printDocTopic_few_rows (self : LDAM) :
  Forall (fun row => row <> []) (doc_topic_ self) ->
  length (doc_topic_ self) < length (documents self) ->
  exists tops,
    Forall2 is_argmax (doc_topic_ self) tops /\
    printDocTopic self =
      (zip_with doc_topic_format (documents self) tops, Raise IndexError).
Proof.
  intros Hrows Hlt. unfold printDocTopic.
  destruct (for_trace_doc_topic_in_range self (length (doc_topic_ self)) 0
              Hrows) as (tops & Hall & Htops); [lia|lia|].
  rewrite ?drop_0 in Hall. rewrite ?drop_0 in Htops.
  rewrite firstn_all in Hall.
  exists tops. split; [done|].
  replace (length (documents self))
    with (length (doc_topic_ self)
          + (length (documents self) - length (doc_topic_ self))) at 1
    by lia.
  rewrite seq_app, for_trace_app, Htops.
  rewrite for_trace_doc_topic_out_of_range by (simpl; lia).
  unfold trace_seq. simpl. rewrite app_nil_r.
  rewrite (Forall2_length _ _ _ Hall).
  by rewrite zip_with_take_l.
Qed.

(** X11: [printDocTopic] prints one line per title as long as the
    document-topic distribution has a row at the title's index, each with
    the first index of the greatest entry of that row; rows beyond the
    number of titles are never read, and when there are fewer rows than
    titles it stops with an index error after the lines of the rows that
    exist. *)
Theorem printDocTopic_rows (self : LDAM) :
  Forall (fun row => row <> []) (doc_topic_ self) ->
  exists tops,
    Forall2 is_argmax
      (take (length (documents self)) (doc_topic_ self)) tops /\
    printDocTopic self =
      (zip_with doc_topic_format (documents self) tops,
       if decide (length (documents self) <= length (doc_topic_ self))
       then Ok tt else Raise IndexError).
Proof.
  intros Hrows. destruct (decide _) as [Hle|Hgt].
  - by apply printDocTopic_enough_rows.
  - destruct (printDocTopic_few_rows self Hrows) as (tops & Hall & Hp); [lia|].
    exists tops. split; [|done].
    by rewrite take_ge by lia.
Qed.

Lemma printDocTopic_rows_witness :
  exists tops,
    Forall2 is_argmax [[1 # 10; 9 # 10]] tops /\
    printDocTopic
      {| terms := []; documents := ["d1"; "d2"]%string; topic_word_ := [];
         doc_topic_ := [[1 # 10; 9 # 10]] |} =
      (zip_with doc_topic_format ["d1"; "d2"]%string tops, Raise IndexError).
Proof.
  apply (printDocTopic_rows
           {| terms := []; documents := ["d1"; "d2"]%string; topic_word_ := [];
              doc_topic_ := [[1 # 10; 9 # 10]] |}).
  repeat constructor; discriminate.
Defined.

Example printDocTopic_short :
  printDocTopic
    {| terms := []; documents := ["d1"; "d2"]%string; topic_word_ := [];
       doc_topic_ := [[1 # 10; 9 # 10]] |} =
  (["d1 (top topic: 1)"]%string, Raise IndexError).
Proof. reflexivity. Qed.

(** ** [fit] followed by [printDocTopic] *)

(** X12: when the fitting routine returns one non-empty row of the
    document-topic distribution per matrix row, [printDocTopic] after [fit]
    prints as many lines as there are documents or matrix rows, whichever
    is fewer, and ends without error exactly when the replication counts of
    the documents add up to at least the number of documents. *)
Theorem fit_printDocTopic (power_law : Z -> result Q)
    (lda_fit : list (list nat) -> list (list Q) * list (list Q))
    (dataset : list DocumentItem) (weights : list Z) (self : LDAM) :
  (forall m, length (lda_fit m).2 = length m) ->
  (forall m, Forall (fun row => row <> []) (lda_fit m).2) ->
  weights_of power_law dataset weights ->
  fit power_law lda_fit dataset = Ok self ->
  documents self = map get_base_url dataset /\
  length (printDocTopic self).1 =
    Nat.min (length dataset) (sum_list (map range_len weights)) /\
  ((printDocTopic self).2 = Ok tt <->
   length dataset <= sum_list (map range_len weights)) /\
  ((printDocTopic self).2 = Ok tt \/ (printDocTopic self).2 = Raise IndexError).
Proof.
  intros Hshape Hrows Hw Hfit. unfold fit in Hfit.
  destruct (createDocTermMat_rows power_law dataset weights Hw)
    as (matrix & terms & titles & Hmat & -> & Hlen).
  rewrite Hmat in Hfit. simpl in Hfit. injection Hfit as <-.
  split; [done|].
  set (self := {| terms := terms; documents := map get_base_url dataset;
                  topic_word_ := (lda_fit matrix).1;
                  doc_topic_ := (lda_fit matrix).2 |}).
  assert (length (doc_topic_ self) = sum_list (map range_len weights)) as HR
    by (simpl; by rewrite Hshape).
  assert (length (documents self) = length dataset) as HN
    by (simpl; by rewrite length_map).
  destruct (decide (length (documents self) <= length (doc_topic_ self)))
    as [Hle|Hgt].
  - destruct (printDocTopic_enough_rows self (Hrows matrix) Hle)
      as (tops & Hall & ->).
    apply Forall2_length in Hall. rewrite length_take in Hall.
    simpl in HR, HN, Hle, Hall |- *. rewrite length_zip_with.
    split_and!; [lia|split; [lia|done]|by left].
  - destruct (printDocTopic_few_rows self (Hrows matrix)) as (tops & Hall & ->);
      [lia|].
    apply Forall2_length in Hall.
    simpl in HR, HN, Hgt, Hall |- *. rewrite length_zip_with.
    split_and!; [lia|split; [done|lia]|by right].
Qed.

Lemma fit_printDocTopic_witness :
  exists self,
    fit (Models.power_law 1) (fun m => ([], map (fun _ => [1 # 1]) m))
      [doc_b; {| base_url := "far"; document := ["fish"]; deg_sep := 11 |}] =
      Ok self /\
    printDocTopic self = (["b (top topic: 0)"]%string, Raise IndexError) /\
    ((printDocTopic self).2 = Ok tt <->
     length [doc_b; {| base_url := "far"; document := ["fish"]; deg_sep := 11 |}]
     <= sum_list (map range_len [1; 0]%Z)).
Proof.
  eexists. split; [reflexivity|]. split; [reflexivity|].
  eapply (fit_printDocTopic (Models.power_law 1)
            (fun m => ([], map (fun _ => [1 # 1]) m))
            [doc_b; {| base_url := "far"; document := ["fish"]; deg_sep := 11 |}]
            [1; 0]%Z).
  - intros m. simpl. by rewrite length_map.
  - intros m. simpl. apply Forall_forall. intros row Hrow.
    apply list_elem_of_In, in_map_iff in Hrow as (? & <- & _). discriminate.
  - repeat constructor.
  - reflexivity.
Defined.

(** ** Joining the words of a document *)

Lemma split_go_blank (tok s1 s2 : string) :
  split_go isspace tok (s1 +:+ String " " s2) =
  split_go isspace tok s1 ++ split_go isspace "" s2.
Proof.
  revert tok. induction s1 as [|c s1 IH]; intros tok; simpl.
  - by destruct (decide (tok = "")).
  - destruct (isspace c).
    + destruct (decide (tok = "")); by rewrite IH.
    + by rewrite IH.
Qed.

Lemma map_string_app (f : ascii -> ascii) (s t : string) :
  Textmining.map_string f (s +:+ t) =
  Textmining.map_string f s +:+ Textmining.map_string f t.
Proof. induction s as [|c s IH]; simpl; [done|]. by rewrite IH. Qed.

Lemma simple_tokenize_blank (s1 s2 : string) :
  Textmining.simple_tokenize (s1 +:+ " " +:+ s2) =
  Textmining.simple_tokenize s1 ++ Textmining.simple_tokenize s2.
Proof.
  unfold Textmining.simple_tokenize, Py.split.
  rewrite !map_string_app. simpl. apply split_go_blank.
Qed.

(** X8: the string that [createDocTermMat] inserts for a document, its
    words joined by blanks, has as tokens the tokens of the words, in
    order: joining neither merges nor breaks tokens. *)
Theorem simple_tokenize_join (words : list string) :
  Textmining.simple_tokenize (join " " words) =
  concat (map Textmining.simple_tokenize words).
Proof.
  induction words as [|w words IH]; [done|].
  destruct words as [|w' words].
  - simpl. by rewrite app_nil_r.
  - change (join " " (w :: w' :: words))
      with (w +:+ " " +:+ join " " (w' :: words)).
    rewrite simple_tokenize_blank, IH. done.
Qed.

(** ** When the loader fails, and what it keeps *)

Section LoaderResult.

Variable regexp_tokenize : string -> list string.
Variable english_stopwords : list string.

Local Abbreviation add_record := (add_record regexp_tokenize english_stopwords).
Local Abbreviation load_document :=
  (load_document regexp_tokenize english_stopwords).
Local Abbreviation get_corpus := (get_corpus regexp_tokenize english_stopwords).


Lemma add_record_ok (item item' : DocumentItem) (data : text_record) :
  add_record item data = Ok item' -> loadable data.
Proof.
  unfold add_record, loadable, is_str.
  destruct (rec_text data) eqn:Et; simpl; try done.
  destruct (int_of_value (rec_deg_sep data)) as [z|e'] eqn:Ed; simpl; [|done].
  intros _. split; [done|by exists z].
Qed.


Lemma for_each_add_record_ok (records : list text_record)
    (item item' : DocumentItem) :
  for_each add_record records item = Ok item' -> Forall loadable records.
Proof.
  revert item. induction records as [|data records IH]; intros item;
    [constructor|].
  cbn [for_each].
  destruct (add_record item data) as [item1|e'] eqn:E; simpl; [|done].
  intros H. constructor; [by eapply add_record_ok|by eapply IH].
Qed.

Lemma load_document_step (collection : list text_record)
    (corpus : list DocumentItem) (url : string) :
  load_document collection corpus url =
  match for_each add_record (Mongo.find url collection) (Items.new url) with
  | Ok item => Ok (corpus ++ [item])
  | Raise e => Raise e
  end.
Proof. reflexivity. Qed.


Lemma for_each_load_document_ok (collection : list text_record)
    (urls : list string) (corpus corpus' : list DocumentItem) :
  for_each (load_document collection) urls corpus = Ok corpus' ->
  Forall (fun url => Forall loadable (Mongo.find url collection)) urls.
Proof.
  revert corpus. induction urls as [|url urls IH]; intros corpus;
    [constructor|].
  cbn [for_each]. rewrite load_document_step.
  destruct (for_each add_record _ _) as [item|e'] eqn:E; simpl; [|done].
  intros H. constructor.
  - by eapply for_each_add_record_ok.
  - by eapply IH.
Qed.

Lemma get_corpus_ok_loadable (collection : list text_record)
    (corpus : list DocumentItem) :
  get_corpus collection = Ok corpus -> Forall loadable collection.
Proof.
  intros H. unfold get_corpus in H.
  apply for_each_load_document_ok in H.
  apply Forall_forall. intros data Hdata.
  assert (rec_base_url data ∈ Mongo.distinct collection) as Hurl.
  { apply elem_of_distinct, list_elem_of_In, in_map, list_elem_of_In, Hdata. }
  pose proof (proj1 (Forall_forall _ _) H _ Hurl) as Hgroup.
  apply (proj1 (Forall_forall _ _) Hgroup).
  by apply list_elem_of_filter.
Qed.


End LoaderResult.

(** ** Grouping by base identifier *)

Lemma find_cons_group (u : string) (keys : list string)
    (collection : list text_record) :
  u ∉ keys ->
  Mongo.find u collection
    ++ filter (fun data => rec_base_url data ∈ keys) collection
  ≡ₚ filter (fun data => rec_base_url data ∈ u :: keys) collection.
Proof.
  intros Hu. unfold Mongo.find.
  induction collection as [|data collection IH]; [done|].
  destruct (decide (rec_base_url data = u)) as [Heq|Hne].
  - rewrite (filter_cons_True (fun d => rec_base_url d = u)) by done.
    rewrite (filter_cons_False (fun d => rec_base_url d ∈ keys))
      by (by rewrite Heq).
    rewrite (filter_cons_True (fun d => rec_base_url d ∈ u :: keys))
      by (rewrite Heq; by left).
    simpl. by rewrite IH.
  - rewrite (filter_cons_False (fun d => rec_base_url d = u)) by done.
    destruct (decide (rec_base_url data ∈ keys)) as [Hin|Hnin].
    + rewrite (filter_cons_True (fun d => rec_base_url d ∈ keys)) by done.
      rewrite (filter_cons_True (fun d => rec_base_url d ∈ u :: keys))
        by (by right).
      rewrite <- Permutation_middle. by rewrite IH.
    + rewrite (filter_cons_False (fun d => rec_base_url d ∈ keys)) by done.
      rewrite (filter_cons_False (fun d => rec_base_url d ∈ u :: keys)); [done|].
      rewrite elem_of_cons. tauto.
Qed.

Lemma groups_Permutation (keys : list string) (collection : list text_record) :
  NoDup keys ->
  concat (map (fun u => Mongo.find u collection) keys)
  ≡ₚ filter (fun data => rec_base_url data ∈ keys) collection.
Proof.
  induction 1 as [|u keys Hu _ IH]; simpl.
  - induction collection as [|data collection IHc]; [done|].
    rewrite filter_cons_False; [done|]. apply not_elem_of_nil.
  - rewrite IH. by apply find_cons_group.
Qed.

Lemma distinct_groups_Permutation (collection : list text_record) :
  concat (map (fun u => Mongo.find u collection) (Mongo.distinct collection))
  ≡ₚ collection.
Proof.
  rewrite groups_Permutation by apply NoDup_distinct.
  assert (forall l : list text_record,
            (forall data, data ∈ l ->
               rec_base_url data ∈ Mongo.distinct collection) ->
            filter (fun data => rec_base_url data ∈ Mongo.distinct collection) l
            = l) as Hall.
  { induction l as [|data l IH]; intros Hl; [done|].
    rewrite filter_cons_True by (apply Hl; by left).
    rewrite IH; [done|]. intros d Hd. apply Hl. by right. }
  rewrite Hall; [done|]. intros data Hdata.
  apply elem_of_distinct, list_elem_of_In, in_map, list_elem_of_In, Hdata.
Qed.

Lemma concat_map_concat {A B} (f : A -> list B) (ls : list (list A)) :
  concat (map f (concat ls)) = concat (map (fun l => concat (map f l)) ls).
Proof.
  induction ls as [|l ls IH]; simpl; [done|].
  by rewrite List.map_app, concat_app, IH.
Qed.

Lemma weights_exist (power_law : Z -> result Q) (dataset : list DocumentItem) :
  (forall d, (1 <= d)%Z -> exists q, power_law d = Ok q /\ (0 < q)%Q) ->
  Forall (fun doc => (1 <= get_deg_sep doc)%Z) dataset ->
  exists weights, weights_of power_law dataset weights /\
                  Forall (fun w => 0 <= w)%Z weights.
Proof.
  intros Hfn Hdeg. induction Hdeg as [|doc docs Hdoc _ (ws & Hws & Hpos)].
  - exists []. split; constructor.
  - destruct (Hfn _ Hdoc) as (a & Ha & Hapos).
    destruct (Hfn MAX_DEGREE) as (b & Hb & Hbpos); [unfold MAX_DEGREE; lia|].
    destruct (apply_weighting_positive power_law _ a b Ha Hb Hapos Hbpos)
      as (w & Hw & Hwpos).
    exists (w :: ws). split; by constructor.
Qed.

Section Pipeline.

Variable regexp_tokenize : string -> list string.
Variable english_stopwords : list string.

Local Abbreviation get_corpus := (get_corpus regexp_tokenize english_stopwords).

Lemma get_corpus_value (collection : list text_record) :
  Forall loadable collection ->
  get_corpus collection =
  Ok (map (fun url => foldl fold_record (Items.new url)
                        (Mongo.find url collection))
        (Mongo.distinct collection)).
Proof.
  intros Hstr. unfold get_corpus.
  by rewrite (for_each_load_document regexp_tokenize english_stopwords).
Qed.

(** X14: grouping loses and repeats no word: the words of the documents of
    the corpus, taken together, are a rearrangement of the words that the
    texts of all records of the store split into. *)
Theorem get_corpus_keeps_words (collection : list text_record)
    (corpus : list DocumentItem) :
  get_corpus collection = Ok corpus ->
  concat (map get_document corpus) ≡ₚ concat (map words_of collection).
Proof.
  intros H.
  pose proof (get_corpus_ok_loadable regexp_tokenize english_stopwords _ _ H)
    as Hstr.
  rewrite get_corpus_value in H by done. injection H as <-.
  rewrite List.map_map.
  rewrite (map_ext _ (fun url => concat (map words_of (Mongo.find url collection))))
    by (intros url; by rewrite document_foldl).
  rewrite <- (List.map_map (fun u => Mongo.find u collection)
                (fun l => concat (map words_of l))).
  rewrite <- concat_map_concat.
  by rewrite distinct_groups_Permutation.
Qed.

(** X16: every word of every document of the corpus is a non-empty string
    without whitespace. *)
Theorem get_corpus_words_clean (collection : list text_record)
    (corpus : list DocumentItem) :
  get_corpus collection = Ok corpus ->
  Forall (fun doc =>
            Forall (fun w => w <> ""%string /\
                             Forall (fun c => isspace c = false) (chars w))
              (get_document doc))
    corpus.
Proof.
  intros H.
  pose proof (get_corpus_ok_loadable regexp_tokenize english_stopwords _ _ H)
    as Hstr.
  rewrite get_corpus_value in H by done. injection H as <-.
  apply Forall_forall. intros doc Hdoc.
  apply list_elem_of_In, in_map_iff in Hdoc as (url & <- & _).
  rewrite document_foldl. simpl.
  apply Forall_forall. intros w Hw.
  apply list_elem_of_In, in_concat in Hw as (ws & Hws & Hw).
  apply in_map_iff in Hws as (data & <- & _).
  unfold words_of in Hw. destruct (rec_text data); try done.
  apply list_elem_of_In in Hw.
  by apply (proj1 (Forall_forall _ _) (split_tokens s)).
Qed.

(** X15: loading a store of string texts and of degrees of separation from
    1 on, and then assembling the matrix under a weighting function that is
    positive from 1 on, succeeds, and the titles are the distinct base
    identifiers of the store, each once. *)
Theorem corpus_titles (power_law : Z -> result Q)
    (collection : list text_record) :
  Forall (fun data => is_str (rec_text data)) collection ->
  Forall (fun data =>
            exists z, int_of_value (rec_deg_sep data) = Ok z /\ (1 <= z)%Z)
    collection ->
  (forall d, (1 <= d)%Z -> exists q, power_law d = Ok q /\ (0 < q)%Q) ->
  exists corpus matrix terms titles,
    get_corpus collection = Ok corpus /\
    createDocTermMat power_law corpus = Ok (matrix, terms, titles) /\
    titles = Mongo.distinct collection /\
    NoDup titles /\
    (forall url, url ∈ titles <-> url ∈ map rec_base_url collection).
Proof.
  intros Hstr Hdeg Hfn.
  assert (Forall loadable collection) as Hload.
  { apply Forall_forall. intros data Hdata.
    destruct (proj1 (Forall_forall _ _) Hdeg data Hdata) as (z & Hz & _).
    split; [by apply (proj1 (Forall_forall _ _) Hstr)|by exists z]. }
  set (corpus := map (fun url => foldl fold_record (Items.new url)
                                   (Mongo.find url collection))
                   (Mongo.distinct collection)).
  assert (Forall (fun doc => (1 <= get_deg_sep doc)%Z) corpus) as Hcorpus.
  { apply Forall_forall. intros doc Hdoc.
    apply list_elem_of_In, in_map_iff in Hdoc as (url & <- & _).
    by apply (deg_sep_foldl_ge (Mongo.find url collection) (Items.new url)). }
  destruct (weights_exist power_law corpus Hfn Hcorpus) as (weights & Hw & _).
  destruct (createDocTermMat_rows power_law corpus weights Hw)
    as (matrix & terms & titles & Hmat & -> & _).
  exists corpus, matrix, terms, (map get_base_url corpus).
  assert (map get_base_url corpus = Mongo.distinct collection) as Hurls.
  { unfold corpus. rewrite List.map_map. erewrite map_ext; [apply map_id|].
    intros url. simpl. by rewrite base_url_foldl. }
  split_and!.
  - by apply get_corpus_value.
  - done.
  - done.
  - rewrite Hurls. apply NoDup_distinct.
  - intros url. rewrite Hurls. apply elem_of_distinct.
Qed.

End Pipeline.

Lemma get_corpus_keeps_words_witness :
  concat (map get_document [doc_a; doc_b]) ≡ₚ
  concat (map words_of
            [mkTextRecord "a" (PyStr "cat dog") (PyInt 1);
             mkTextRecord "b" (PyStr "dog bird") (PyInt 10);
             mkTextRecord "a" (PyStr " cat") (PyInt 1)]).
Proof.
  apply (get_corpus_keeps_words (fun _ => []) []
           [mkTextRecord "a" (PyStr "cat dog") (PyInt 1);
            mkTextRecord "b" (PyStr "dog bird") (PyInt 10);
            mkTextRecord "a" (PyStr " cat") (PyInt 1)] [doc_a; doc_b]).
  reflexivity.
Defined.

Lemma get_corpus_words_clean_witness :
  Forall (fun doc =>
            Forall (fun w => w <> ""%string /\
                             Forall (fun c => isspace c = false) (chars w))
              (get_document doc))
    [doc_a; doc_b].
Proof.
  apply (get_corpus_words_clean (fun _ => []) []
           [mkTextRecord "a" (PyStr "cat dog") (PyInt 1);
            mkTextRecord "b" (PyStr "dog bird") (PyInt 10);
            mkTextRecord "a" (PyStr " cat") (PyInt 1)] [doc_a; doc_b]).
  reflexivity.
Defined.

Lemma corpus_titles_witness :
  exists corpus matrix terms titles,
    get_corpus (fun _ => []) []
      [mkTextRecord "a" (PyStr "cat dog") (PyInt 1);
       mkTextRecord "b" (PyStr "dog bird") (PyInt 10);
       mkTextRecord "a" (PyStr " cat") (PyInt 1)] = Ok corpus /\
    createDocTermMat (Models.power_law 1) corpus = Ok (matrix, terms, titles) /\
    titles =
      Mongo.distinct
        [mkTextRecord "a" (PyStr "cat dog") (PyInt 1);
         mkTextRecord "b" (PyStr "dog bird") (PyInt 10);
         mkTextRecord "a" (PyStr " cat") (PyInt 1)] /\
    NoDup titles /\
    (forall url,
       url ∈ titles <->
       url ∈ map rec_base_url
               [mkTextRecord "a" (PyStr "cat dog") (PyInt 1);
                mkTextRecord "b" (PyStr "dog bird") (PyInt 10);
                mkTextRecord "a" (PyStr " cat") (PyInt 1)]).
Proof.
  apply (corpus_titles (fun _ => []) [] (Models.power_law 1)).
  - repeat constructor.
  - repeat (apply List.Forall_cons;
              [eexists; split; [vm_compute; reflexivity|lia]|]).
    apply List.Forall_nil.
  - intros d Hd. exists (Models.inverse_power 1 d).
    split; [by apply power_law_value|by apply inverse_power_positive].
Defined.
